(** * ipfs-search: crawler core and sniffer event source

    A shallow embedding of the crawler worker (package [crawler]:
    [Crawl], [updateMaybeExisting], [updateExisting], [index],
    [crawlDir], [processDirEntries], [queueDirEntry]) and of the
    sniffer's [eventsource.afterPut] hook, followed by the properties
    proved about them.

    Effects are explicit.  Every call that leaves the crawler (search
    backend, broker, protocol, extractors, clock, random source) appends
    an event to a trace; its result is read from a [World], which may
    answer differently depending on the trace so far.  A Go [panic] is
    an outcome of its own. *)

From Stdlib Require Import ZArith List String Ascii Bool Lia.
Import ListNotations.

Open Scope string_scope.
Open Scope list_scope.
Open Scope Z_scope.

(** ** Machine integers and time *)

(** Go's [uint] on the 64-bit targets the crawler is built for. *)
Definition uint_modulus : Z := 2 ^ 64.
Definition uint_wrap (x : Z) : Z := x mod uint_modulus.
Definition is_uint (x : Z) : Prop := 0 <= x < uint_modulus.

(** The conversion [uint8(x)]. *)
Definition uint8 (x : Z) : Z := x mod 256.

(** [time.Duration]: a signed 64-bit count of nanoseconds. *)
Definition Duration := Z.
Definition minDuration : Duration := - 2 ^ 63.
Definition maxDuration : Duration := 2 ^ 63 - 1.
Definition Second : Duration := 1000000000.

(** [time.Time] as the number of nanoseconds since the zero time
    (January 1, year 1, 00:00:00 UTC). *)
Definition Time := Z.

(** [Time.Sub]: the difference, saturated to the range of [Duration]. *)
Definition Time_Sub (a u : Time) : Duration :=
  let d := a - u in
  if d <? minDuration then minDuration
  else if maxDuration <? d then maxDuration
  else d.

(** [Time.Truncate(d)]: round down to a multiple of [d] since the zero
    time; the time is returned unchanged when [d <= 0]. *)
Definition Time_Truncate (a : Time) (d : Duration) : Time :=
  if d <=? 0 then a else a - a mod d.

(** ** Package [types] *)

Module t.

(** Modelled from the spec: the declarations of [Protocol],
    [ResourceType], [SourceType], [Resource], [Reference] and [Stat]
    are not among the sources (only [AnnotatedResource] is); their
    variants and fields are the ones the spec's data model lists and
    the crawler uses. *)
Inductive Protocol : Type :=
| InvalidProtocol
| IPFSProtocol.

Inductive ResourceType : Type :=
| UndefinedType
| FileType
| DirectoryType
| PartialType
| UnsupportedType.

(** Modelled from the spec: the five named sources.  [OtherSource]
    stands for a value of the underlying integer type that is none of
    them, as a decoded message may carry; the [default] branch of
    [updateExisting] is written for it.  Its [code] is not
    interpreted. *)
Inductive SourceType : Type :=
| UnknownSource
| SnifferSource
| DirectorySource
| ManualSource
| UserSource
| OtherSource (code : Z).

Record Resource : Type := mkResource {
  Protocol_ : Protocol;
  ID : string
}.

Record Stat : Type := mkStat {
  Type_ : ResourceType;
  Size : Z
}.

(** [AnnotatedResource] embeds [*Resource], [Reference] and [Stat];
    [Reference.Parent] is a nilable pointer to the parent. *)
Inductive AnnotatedResource : Type := mkAnnotatedResource {
  resource : Resource;
  Source : SourceType;
  reference : Reference;
  stat : Stat
}
with Reference : Type := mkReference {
  Parent : option AnnotatedResource;
  Name : string
}.

(** ** Errors *)

(** Go [error] values: [errors.New(s)], [types.WrappedError{Err, Msg}]
    and [fmt.Errorf("%w: %v", w, v)].  A nil error is [None]. *)
Inductive error_value : Type :=
| ErrorString (s : string)
| WrappedError (Err : error_value) (Msg : string)
| Errorf_w_v (w v : error_value).

End t.

Definition error := option t.error_value.

(** Promoted fields of the embedded structs. *)
Definition r_ID (r : t.AnnotatedResource) : string := t.ID (t.resource r).
Definition r_Protocol (r : t.AnnotatedResource) : t.Protocol := t.Protocol_ (t.resource r).
Definition r_Type (r : t.AnnotatedResource) : t.ResourceType := t.Type_ (t.stat r).
Definition r_Size (r : t.AnnotatedResource) : Z := t.Size (t.stat r).
Definition r_Parent (r : t.AnnotatedResource) : option t.AnnotatedResource :=
  t.Parent (t.reference r).
Definition r_Name (r : t.AnnotatedResource) : string := t.Name (t.reference r).

Fixpoint error_eqb (a b : t.error_value) : bool :=
  match a, b with
  | t.ErrorString s, t.ErrorString s' => String.eqb s s'
  | t.WrappedError e m, t.WrappedError e' m' => error_eqb e e' && String.eqb m m'
  | t.Errorf_w_v w v, t.Errorf_w_v w' v' => error_eqb w w' && error_eqb v v'
  | _, _ => false
  end.

(** [errors.Is(err, target)]: [err] or an error on its [Unwrap] chain
    equals [target]. *)
Fixpoint errors_Is_value (e target : t.error_value) : bool :=
  error_eqb e target ||
  match e with
  | t.ErrorString _ => false
  | t.WrappedError e' _ => errors_Is_value e' target
  | t.Errorf_w_v w _ => errors_Is_value w target
  end.

Definition errors_Is (err : error) (target : t.error_value) : bool :=
  match err with
  | None => false
  | Some e => errors_Is_value e target
  end.

(** Modelled from the spec: [WrappedError.Error] is not among the
    sources.  The spec requires the error string of a wrapped error to
    contain its message; it is rendered here as the message followed
    by the wrapped error's string. *)
Fixpoint Error (e : t.error_value) : string :=
  match e with
  | t.ErrorString s => s
  | t.WrappedError e' m => (m ++ ": " ++ Error e')%string
  | t.Errorf_w_v w v => (Error w ++ ": " ++ Error v)%string
  end.

(** Modelled from the spec: the sentinel errors of packages [types] and
    [extractor] are not among the sources.  [UnsupportedType] is
    classified as [InvalidResource]; [FileTooLarge] is turned into an
    [InvalidResource] by the crawler. *)
Definition ErrInvalidResource : t.error_value := t.ErrorString "invalid resource".
Definition ErrUnsupportedType : t.error_value :=
  t.WrappedError ErrInvalidResource "unsupported type".
Definition ErrUnexpectedResponse : t.error_value := t.ErrorString "unexpected response".
Definition ErrFileTooLarge : t.error_value := t.ErrorString "file too large".

(** ** Package [index/types] *)

Module indexTypes.

(** Modelled from the spec: the document types of the four indexes are
    not among the sources; the fields are those of the spec's data
    model and of the literals the crawler builds. *)
Record Reference : Type := mkReference {
  ParentHash : string;
  Name : string
}.

Definition References := list Reference.

Record Document : Type := mkDocument {
  FirstSeen : Time;
  LastSeen : Time;
  Document_References : References;
  Size : Z
}.

Inductive LinkType : Type :=
| FileLinkType
| DirectoryLinkType
| UnknownLinkType
| UnsupportedLinkType.

Record Link : Type := mkLink {
  Hash : string;
  Link_Name : string;
  Link_Size : Z;
  Link_Type : LinkType
}.

Record File : Type := mkFile {
  File_Document : Document;
  Metadata : list (string * string)
}.

Record Directory : Type := mkDirectory {
  Directory_Document : Document;
  Links : list Link
}.

Record Invalid : Type := mkInvalid {
  Invalid_Error : string
}.

(** A partial update; a nil [LastSeen] pointer is [None], a nil
    [References] slice is the empty list. *)
Record Update : Type := mkUpdate {
  Update_LastSeen : option Time;
  Update_References : References
}.

End indexTypes.

(** The [interface{}] handed to [Index.Index]. *)
Inductive properties : Type :=
| PNil
| PFile (f : indexTypes.File)
| PDirectory (d : indexTypes.Directory)
| PPartial
| PInvalid (i : indexTypes.Invalid).

(** The four handles of [crawler.Indexes] and the three of
    [crawler.Queues]. *)
Inductive Index : Type :=
| Indexes_Files
| Indexes_Directories
| Indexes_Invalids
| Indexes_Partials.

Inductive Queue : Type :=
| Queues_Files
| Queues_Directories
| Queues_Hashes.

Definition Index_eqb (a b : Index) : bool :=
  match a, b with
  | Indexes_Files, Indexes_Files
  | Indexes_Directories, Indexes_Directories
  | Indexes_Invalids, Indexes_Invalids
  | Indexes_Partials, Indexes_Partials => true
  | _, _ => false
  end.

(** ** Effects *)

(** One event per call that leaves the crawler, in program order. *)
Inductive event : Type :=
| EvNow
| EvIntn (n : Z)
| EvGetExisting (r : t.AnnotatedResource)
| EvStat (r : t.AnnotatedResource)
| EvLs (r : t.AnnotatedResource)
| EvExtract (n : nat) (r : t.AnnotatedResource) (f : indexTypes.File)
| EvIndex (i : Index) (id : string) (p : properties)
| EvUpdate (i : Index) (id : string) (u : indexTypes.Update)
| EvDelete (i : Index) (id : string)
| EvPublish (q : Queue) (r : t.AnnotatedResource) (priority : Z).

Definition trace := list event.

Inductive outcome (A : Type) : Type :=
| Ret (a : A)
| Panic (msg : string).

Arguments Ret {A} a.
Arguments Panic {A} msg.

Definition M (A : Type) : Type := trace -> outcome A * trace.

Definition ret {A : Type} (a : A) : M A := fun h => (Ret a, h).

Definition bind {A B : Type} (m : M A) (k : A -> M B) : M B :=
  fun h =>
    match m h with
    | (Ret a, h') => k a h'
    | (Panic msg, h') => (Panic msg, h')
    end.

Definition panic {A : Type} (msg : string) : M A := fun h => (Panic msg, h).

(** An outside call: the answer is read from the trace so far, and
    the call is recorded. *)
Definition call {A : Type} (ev : event) (answer : trace -> A) : M A :=
  fun h => (Ret (answer h), h ++ [ev]).

Notation "x <- m ;; k" := (bind m (fun x => k))
  (at level 61, m at next level, right associativity).
Notation "' pat <- m ;; k" := (bind m (fun x => match x with pat => k end))
  (at level 61, pat pattern, m at next level, right associativity).

(** What the consumer's [select] yields on one iteration: an entry
    from the channel, or the context's error.  The end of the list is
    the closed channel. *)
Inductive recv : Type :=
| Entry (e : t.AnnotatedResource)
| CtxDone (err : t.error_value).

(** One run of [protocol.Ls]: what the consumer receives, what [Ls]
    returns, and whether its error (if any) reaches the error group
    before the consumer's. *)
Record LsRun : Type := mkLsRun {
  received : list recv;
  ls_err : error;
  ls_err_first : bool
}.

(** The collaborators of the crawler. *)
Record World : Type := mkWorld {
  time_Now : trace -> Time;
  rand_Intn : trace -> Z -> Z;
  index_Get : trace -> t.AnnotatedResource -> option (Index * indexTypes.Update) * error;
  index_Index : trace -> Index -> string -> properties -> error;
  index_Update : trace -> Index -> string -> indexTypes.Update -> error;
  index_Delete : trace -> Index -> string -> error;
  queue_Publish : trace -> Queue -> t.AnnotatedResource -> Z -> error;
  protocol_Stat : trace -> t.AnnotatedResource -> t.Stat * error;
  protocol_Ls : trace -> t.AnnotatedResource -> LsRun
}.

(** [extractor.Extractor]: [Extract] may fill in the file document
    and returns an error. *)
Record Extractor : Type := mkExtractor {
  Extract : trace -> t.AnnotatedResource -> indexTypes.File -> indexTypes.File * error
}.

(** [crawler.Config] (the fields of [config.Crawler]). *)
Record Config : Type := mkConfig {
  DirEntryBufferSize : Z;
  MinUpdateAge : Duration;
  StatTimeout : Duration;
  DirEntryTimeout : Duration;
  MaxDirSize : Z
}.

Record Crawler : Type := mkCrawler {
  config : Config;
  world : World;
  extractors : list Extractor
}.

(** ** Package [crawler] *)

Definition Index_Index (c : Crawler) (i : Index) (id : string) (p : properties) : M error :=
  call (EvIndex i id p) (fun h => index_Index (world c) h i id p).

Definition Index_Update (c : Crawler) (i : Index) (id : string) (u : indexTypes.Update) : M error :=
  call (EvUpdate i id u) (fun h => index_Update (world c) h i id u).

Definition Index_Delete (c : Crawler) (i : Index) (id : string) : M error :=
  call (EvDelete i id) (fun h => index_Delete (world c) h i id).

Definition Queue_Publish (c : Crawler) (q : Queue) (r : t.AnnotatedResource) (priority : Z) : M error :=
  call (EvPublish q r priority) (fun h => queue_Publish (world c) h q r priority).

(** *** index.go *)

Definition makeDocument (c : Crawler) (r : t.AnnotatedResource) : M indexTypes.Document :=
  now <- call EvNow (time_Now (world c)) ;;
  let now := Time_Truncate now Second in
  let references :=
    match r_Parent r with
    | Some parent => [indexTypes.mkReference (r_ID parent) (r_Name r)]
    | None => []
    end in
  ret (indexTypes.mkDocument now now references (r_Size r)).

Definition indexInvalid (c : Crawler) (r : t.AnnotatedResource) (err : t.error_value) : M error :=
  Index_Index c Indexes_Invalids (r_ID r) (PInvalid (indexTypes.mkInvalid (Error err))).

(** The [for _, e := range c.extractors] loop of [getFileProperties];
    [n] is the position of the next extractor and [err] the error
    variable as the previous iteration left it. *)
Fixpoint getFileProperties_loop (es : list Extractor) (n : nat) (r : t.AnnotatedResource)
    (f : indexTypes.File) (err : error) : M (properties * error) :=
  match es with
  | [] => ret (PFile f, err)
  | e :: es' =>
      '(f', err') <- call (EvExtract n r f) (fun h => Extract e h r f) ;;
      match err' with
      | Some v =>
          if errors_Is_value v ErrFileTooLarge
          then ret (PNil, Some (t.Errorf_w_v ErrInvalidResource v))
          else getFileProperties_loop es' (S n) r f' err'
      | None => getFileProperties_loop es' (S n) r f' err'
      end
  end.

Definition getFileProperties (c : Crawler) (r : t.AnnotatedResource) : M (properties * error) :=
  doc <- makeDocument c r ;;
  getFileProperties_loop (extractors c) 0%nat r (indexTypes.mkFile doc []) None.

(** *** Directory crawling *)

Definition ErrDirectoryTooLarge : t.error_value :=
  t.WrappedError ErrInvalidResource "directory too large".

Definition errEndOfLs : t.error_value := t.ErrorString "end of list".

Definition resourceToLinkType (r : t.AnnotatedResource) : M indexTypes.LinkType :=
  match r_Type r with
  | t.FileType => ret indexTypes.FileLinkType
  | t.DirectoryType => ret indexTypes.DirectoryLinkType
  | t.UndefinedType => ret indexTypes.UnknownLinkType
  | t.UnsupportedType => ret indexTypes.UnsupportedLinkType
  | t.PartialType => panic "unexpected type"
  end.

Definition addLink (e : t.AnnotatedResource) (properties : indexTypes.Directory)
    : M indexTypes.Directory :=
  ty <- resourceToLinkType e ;;
  ret (indexTypes.mkDirectory
         (indexTypes.Directory_Document properties)
         (indexTypes.Links properties ++ [indexTypes.mkLink (r_ID e) (r_Name e) (r_Size e) ty])).

Definition queueDirEntry (c : Crawler) (r : t.AnnotatedResource) : M error :=
  n <- call (EvIntn 7) (fun h => rand_Intn (world c) h 7) ;;
  let priority := uint8 (1 + n) in
  match r_Type r with
  | t.UndefinedType => Queue_Publish c Queues_Hashes r priority
  | t.FileType => Queue_Publish c Queues_Files r priority
  | t.DirectoryType => Queue_Publish c Queues_Directories r priority
  | t.UnsupportedType => indexInvalid c r ErrUnsupportedType
  | t.PartialType => panic "unexpected type"
  end.

(** The loop [for err == nil { err = processNextDirEntry(); dirCnt++ }]
    of [processDirEntries], run over what the consumer receives.  It
    returns the error that ended it together with [isLarge] and the
    directory document. *)
Fixpoint processDirEntries_loop (c : Crawler) (entries : list recv) (dirCnt : Z)
    (isLarge : bool) (properties : indexTypes.Directory)
    : M (t.error_value * bool * indexTypes.Directory) :=
  match entries with
  | [] => ret (errEndOfLs, isLarge, properties)
  | CtxDone err :: _ => ret (err, isLarge, properties)
  | Entry entry :: entries' =>
      let isLarge := if dirCnt =? MaxDirSize (config c) then true else isLarge in
      properties <- (if negb isLarge then addLink entry properties else ret properties) ;;
      err <- queueDirEntry c entry ;;
      match err with
      | Some e => ret (e, isLarge, properties)
      | None => processDirEntries_loop c entries' (uint_wrap (dirCnt + 1)) isLarge properties
      end
  end.

Definition processDirEntries (c : Crawler) (entries : list recv)
    (properties : indexTypes.Directory) : M (indexTypes.Directory * error) :=
  '(err, isLarge, properties) <- processDirEntries_loop c entries 0 false properties ;;
  if errors_Is_value err errEndOfLs
  then ret (properties, if isLarge then Some ErrDirectoryTooLarge else None)
  else ret (properties, Some err).

(** [errgroup.Group.Wait]: the first non-nil error of the two tasks. *)
Definition errgroup_Wait (consumer producer : error) (producer_first : bool) : error :=
  match consumer, producer with
  | None, _ => producer
  | Some _, None => consumer
  | Some _, Some _ => if producer_first then producer else consumer
  end.

Definition crawlDir (c : Crawler) (r : t.AnnotatedResource)
    (properties : indexTypes.Directory) : M (indexTypes.Directory * error) :=
  ls <- call (EvLs r) (fun h => protocol_Ls (world c) h r) ;;
  '(properties, err) <- processDirEntries c (received ls) properties ;;
  ret (properties, errgroup_Wait err (ls_err ls) (ls_err_first ls)).

Definition getDirectoryProperties (c : Crawler) (r : t.AnnotatedResource)
    : M (properties * error) :=
  doc <- makeDocument c r ;;
  '(properties, err) <- crawlDir c r (indexTypes.mkDirectory doc []) ;;
  ret (PDirectory properties, err).

Definition getProperties (c : Crawler) (r : t.AnnotatedResource)
    : M (option Index * properties * error) :=
  match r_Type r with
  | t.FileType =>
      '(f, err) <- getFileProperties c r ;;
      ret (Some Indexes_Files, f, err)
  | t.DirectoryType =>
      '(d, err) <- getDirectoryProperties c r ;;
      ret (Some Indexes_Directories, d, err)
  | t.UnsupportedType => ret (None, PNil, Some ErrUnsupportedType)
  | t.PartialType => ret (Some Indexes_Partials, PPartial, None)
  | t.UndefinedType => panic "undefined type after Stat call"
  end.

Definition index (c : Crawler) (r : t.AnnotatedResource) : M error :=
  '(idx, properties, err) <- getProperties c r ;;
  match err with
  | Some e =>
      if errors_Is_value e ErrInvalidResource
      then indexInvalid c r e
      else ret (Some e)
  | None =>
      match idx with
      | Some i => Index_Index c i (r_ID r) properties
      | None => panic "invalid memory address or nil pointer dereference"
      end
  end.

(** *** Existing items *)

(** Modelled from the spec: [existingItem] and [getExistingItem] are
    not among the sources.  The lookup asks the four indexes for the
    CID and returns which index (if any) holds it, with the stored
    [References] and [LastSeen]; the item carries the incoming
    resource. *)
Record existingItem : Type := mkExistingItem {
  item_AnnotatedResource : t.AnnotatedResource;
  item_Index : Index;
  item_References : indexTypes.References;
  item_LastSeen : option Time
}.

Definition getExistingItem (c : Crawler) (r : t.AnnotatedResource)
    : M (option existingItem * error) :=
  call (EvGetExisting r) (fun h =>
    let '(found, err) := index_Get (world c) h r in
    (option_map (fun '(idx, u) =>
       mkExistingItem r idx (indexTypes.Update_References u) (indexTypes.Update_LastSeen u))
       found, err)).

Definition Reference_eqb (a : indexTypes.Reference) (parentHash name : string) : bool :=
  String.eqb (indexTypes.ParentHash a) parentHash && String.eqb (indexTypes.Name a) name.

Definition appendReference (refs : indexTypes.References) (r : t.Reference)
    : indexTypes.References * bool :=
  match t.Parent r with
  | None => (refs, false)
  | Some parent =>
      if existsb (fun indexedRef => Reference_eqb indexedRef (r_ID parent) (t.Name r)) refs
      then (refs, false)
      else (refs ++ [indexTypes.mkReference (r_ID parent) (t.Name r)], true)
  end.

(** [updateExisting]; the [default] branch of the switch panics for a
    source that is none of the five named ones.  The panic's message
    is [Unexpected source], followed in the source by the formatted
    source and item, which are left out. *)
Definition updateExisting (c : Crawler) (i : existingItem) : M error :=
  let r := item_AnnotatedResource i in
  match t.Source r with
  | t.DirectorySource =>
      let '(refs, refsUpdated) := appendReference (item_References i) (t.reference r) in
      if refsUpdated
      then Index_Update c (item_Index i) (r_ID r) (indexTypes.mkUpdate None refs)
      else ret None
  | t.SnifferSource | t.UnknownSource =>
      now <- call EvNow (time_Now (world c)) ;;
      let now := Time_Truncate now Second in
      let isRecent :=
        match item_LastSeen i with
        | None => true
        | Some lastSeen => MinUpdateAge (config c) <? Time_Sub now lastSeen
        end in
      if isRecent
      then Index_Update c (item_Index i) (r_ID r) (indexTypes.mkUpdate (Some now) [])
      else ret None
  | t.ManualSource | t.UserSource => ret None
  | t.OtherSource _ => panic "Unexpected source"
  end.

Definition deletePartial (c : Crawler) (i : existingItem) : M error :=
  Index_Delete c Indexes_Partials (r_ID (item_AnnotatedResource i)).

Definition processPartial (c : Crawler) (i : existingItem) : M (bool * error) :=
  match r_Parent (item_AnnotatedResource i) with
  | None => ret (true, None)
  | Some _ =>
      err <- deletePartial c i ;;
      match err with
      | Some e => ret (true, Some e)
      | None => ret (false, None)
      end
  end.

Definition processExisting (c : Crawler) (i : existingItem) : M (bool * error) :=
  match item_Index i with
  | Indexes_Invalids => ret (true, None)
  | Indexes_Partials => processPartial c i
  | _ =>
      err <- updateExisting c i ;;
      match err with
      | Some e => ret (true, Some e)
      | None => ret (true, None)
      end
  end.

Definition updateMaybeExisting (c : Crawler) (r : t.AnnotatedResource) : M (bool * error) :=
  '(existing, err) <- getExistingItem c r ;;
  match err with
  | Some e => ret (false, Some e)
  | None =>
      match existing with
      | Some i => processExisting c i
      | None => ret (false, None)
      end
  end.

(** *** Crawl *)

Definition isSupportedType (rType : t.ResourceType) : bool :=
  match rType with
  | t.UndefinedType | t.FileType | t.DirectoryType => true
  | _ => false
  end.

(** [ensureType]; [Stat] writes the resource's [Stat] fields, so the
    resource is returned with the error. *)
Definition ensureType (c : Crawler) (r : t.AnnotatedResource)
    : M (t.AnnotatedResource * error) :=
  match r_Type r with
  | t.UndefinedType =>
      '(st, err) <- call (EvStat r) (fun h => protocol_Stat (world c) h r) ;;
      ret (t.mkAnnotatedResource (t.resource r) (t.Source r) (t.reference r) st, err)
  | _ => ret (r, None)
  end.

(** The statements of [Crawl] that follow [updateMaybeExisting] when
    the resource is not, or no longer, indexed: [ensureType], then
    [index] (or [indexInvalid] on an invalid resource). *)
Definition Crawl_new (c : Crawler) (r : t.AnnotatedResource) : M error :=
  '(r, err) <- ensureType c r ;;
  match err with
  | Some e =>
      if errors_Is_value e ErrInvalidResource
      then indexInvalid c r e
      else ret (Some e)
  | None => index c r
  end.

Definition Crawl (c : Crawler) (r : t.AnnotatedResource) : M error :=
  if match r_Protocol r with t.InvalidProtocol => true | _ => false end
  then panic "invalid protocol"
  else if negb (isSupportedType (r_Type r))
  then panic "invalid type for crawler"
  else
    '(exists_, err) <- updateMaybeExisting c r ;;
    match err with
    | Some e => ret (Some e)
    | None => if (exists_ : bool) then ret None else Crawl_new c r
    end.

(** ** Package [eventsource] *)

Module eventsource.

Definition Key := string.
Definition Cid := string.
Definition PeerID := string.

Record EvtProviderPut : Type := mkEvtProviderPut {
  CID : Cid;
  PeerID_ : PeerID
}.

(** What [afterPut] does to its tracing span. *)
Inductive span_event : Type :=
| RecordError (err : t.error_value)
| SetAttributes (cid : Cid) (pid : PeerID)
| SetStatusOk (description : string).

(** The span of one [afterPut] call and the events emitted on the bus
    so far. *)
Record State : Type := mkState {
  span : list span_event;
  bus : list EvtProviderPut
}.

(** The key functions of the package ([isProviderKey], [keyToCID],
    [keyToPeerID]) are not among the sources and are taken as
    parameters, together with the emitter, whose answer may depend on
    what the bus already holds. *)
Record EventSource : Type := mkEventSource {
  isProviderKey : Key -> bool;
  keyToCID : Key -> Cid + t.error_value;
  keyToPeerID : Key -> PeerID + t.error_value;
  emitter_Emit : list EvtProviderPut -> EvtProviderPut -> error
}.

Definition span_RecordError (err : t.error_value) (st : State) : State :=
  mkState (span st ++ [RecordError err]) (bus st).

(** [fmt.Errorf("<what> from key '%s': %w", k, err)]. *)
Definition from_key_error (what : string) (k : Key) (err : t.error_value) : t.error_value :=
  t.WrappedError err (what ++ " from key '" ++ k ++ "'")%string.

(** [afterPut]; the parameter [err] is reassigned by the two parses,
    while the error of [Emit] lives in the scope of its [if] only. *)
Definition afterPut (s : EventSource) (k : Key) (v : list Byte.byte) (err : error)
    (st : State) : error * State :=
  match err with
  | Some e => (Some e, span_RecordError e st)
  | None =>
      if negb (isProviderKey s k)
      then (None, span_RecordError (t.ErrorString "Non-provider key") st)
      else
        match keyToCID s k with
        | inr e => (None, span_RecordError (from_key_error "cid" k e) st)
        | inl cid =>
            match keyToPeerID s k with
            | inr e => (None, span_RecordError (from_key_error "pid" k e) st)
            | inl pid =>
                let err : error := None in
                let st := mkState (span st ++ [SetAttributes cid pid]) (bus st) in
                let e := mkEvtProviderPut cid pid in
                match emitter_Emit s (bus st) e with
                | Some emitErr => (err, span_RecordError emitErr st)
                | None => (err, mkState (span st ++ [SetStatusOk "emitted"]) (bus st ++ [e]))
                end
            end
        end
  end.

(** A value read from the bus subscription: the bus carries
    [interface{}] values, of which only [EvtProviderPut] is expected. *)
Inductive bus_value : Type :=
| ProviderPut (e : EvtProviderPut)
| OtherValue.

(** What the [select] of [iterate] yields: the context's error or a
    value from the channel; [None] stands for the closed channel. *)
Inductive bus_recv : Type :=
| RecvCtxDone (err : t.error_value)
| RecvValue (v : bus_value).

(** [handleFunc]: the handler may answer according to the events it
    has been given before. *)
Definition handleFunc := list EvtProviderPut -> EvtProviderPut -> error.

(** [iterate], on one outcome of the [select]; the list holds the
    events handed to the handler so far.  The text that [%v] adds to
    the casting error is left out. *)
Definition iterate (r : option bus_recv) (h : handleFunc) (handled : list EvtProviderPut)
    : error * list EvtProviderPut :=
  match r with
  | Some (RecvCtxDone err) => (Some err, handled)
  | None => (Some (t.ErrorString "reading from event bus"), handled)
  | Some (RecvValue OtherValue) => (Some (t.ErrorString "casting event"), handled)
  | Some (RecvValue (ProviderPut evt)) => (h handled evt, handled ++ [evt])
  end.

(** The loop of [Subscribe] over what the subscription delivers; the
    end of the list is the closed channel. *)
Fixpoint Subscribe_loop (c : list bus_recv) (h : handleFunc) (handled : list EvtProviderPut)
    : error * list EvtProviderPut :=
  match c with
  | [] => iterate None h handled
  | r :: c' =>
      match iterate (Some r) h handled with
      | (Some err, handled') => (Some err, handled')
      | (None, handled') => Subscribe_loop c' h handled'
      end
  end.

(** [Subscribe]; [sub] is what [bus.Subscribe] returns: an error, or
    the subscription's channel. *)
Definition Subscribe (sub : list bus_recv + t.error_value) (h : handleFunc)
    : error * list EvtProviderPut :=
  match sub with
  | inr err => (Some (t.WrappedError err "subscribing"), [])
  | inl c => Subscribe_loop c h []
  end.

End eventsource.

(** ** Package [sniffer] *)

Module sniffer.

(** One pass of the loop of [Sniff]: the error [iterate] returned
    (the first error of the three pipeline stages) and what [ctx.Err()]
    answers right after. *)
Record round : Type := mkRound {
  iterate_err : error;
  ctx_Err : error
}.

Inductive sniff_event : Type :=
| Iterate
| Sleep (d : Duration).

(** The loop of [Sniff] over the rounds that are given; [None] when
    they are used up and the loop is still running. *)
Fixpoint Sniff (rounds : list round) (log : list sniff_event)
    : option t.error_value * list sniff_event :=
  match rounds with
  | [] => (None, log)
  | r :: rounds' =>
      let log := log ++ [Iterate] in
      match ctx_Err r with
      | Some err => (Some err, log)
      | None => Sniff rounds' (log ++ [Sleep Second])
      end
  end.

End sniffer.

(** ** Package [elasticsearch] *)

Module elasticsearch.

(** What the backend answers to one get request: the error of
    [req.Do], and, for a response, its status, the error of decoding its
    body, the [found] field and the error of decoding [_source] into
    the destination. *)
Record GetOutcome : Type := mkGetOutcome {
  do_err : error;
  StatusCode : Z;
  Status : string;
  decode_body_err : error;
  Found : bool;
  decode_source_err : error
}.

(** [Index.Get]: whether the document was found, and the error. *)
Definition Get (o : GetOutcome) : bool * error :=
  match do_err o with
  | Some err => (false, Some err)
  | None =>
      match decode_body_err o with
      | Some err => (false, Some (t.WrappedError err "error decoding body"))
      | None =>
          if Found o
          then
            match decode_source_err o with
            | Some err => (false, Some (t.WrappedError err "error decoding source"))
            | None => (true, None)
            end
          else if negb (StatusCode o =? 404)
          then (false, Some (t.ErrorString ("unexpected status from backend: " ++ Status o)))
          else (false, None)
      end
  end.

End elasticsearch.

(** ** Observations on traces *)

Definition is_write (e : event) : bool :=
  match e with
  | EvIndex _ _ _ | EvUpdate _ _ _ | EvDelete _ _ => true
  | _ => false
  end.

Definition is_index_access (e : event) : bool :=
  match e with
  | EvGetExisting _ => true
  | _ => is_write e
  end.

Definition is_delete_of (i : Index) (id : string) (e : event) : bool :=
  match e with
  | EvDelete i' id' => Index_eqb i' i && String.eqb id' id
  | _ => false
  end.

Definition is_delete (e : event) : bool :=
  match e with
  | EvDelete _ _ => true
  | _ => false
  end.

Definition is_index_into (i : Index) (e : event) : bool :=
  match e with
  | EvIndex i' _ _ => Index_eqb i' i
  | _ => false
  end.

Definition is_publish (e : event) : bool :=
  match e with
  | EvPublish _ _ _ => true
  | _ => false
  end.

Definition count (p : event -> bool) (s : trace) : nat := List.length (filter p s).



(** The trace after [queueDirEntry] has run on each child in turn. *)
Fixpoint queue_all (c : Crawler) (children : list t.AnnotatedResource) (h : trace) : trace :=
  match children with
  | [] => h
  | e :: children' => queue_all c children' (snd (queueDirEntry c e h))
  end.

(** The link [addLink] appends for a child. *)
Definition link_of (e : t.AnnotatedResource) : indexTypes.Link :=
  indexTypes.mkLink (r_ID e) (r_Name e) (r_Size e)
    match r_Type e with
    | t.FileType => indexTypes.FileLinkType
    | t.DirectoryType => indexTypes.DirectoryLinkType
    | t.UnsupportedType => indexTypes.UnsupportedLinkType
    | _ => indexTypes.UnknownLinkType
    end.

(** The position of the extractor an event invokes. *)
Definition extracted (e : event) : list nat :=
  match e with
  | EvExtract n _ _ => [n]
  | _ => []
  end.

Definition extracted_positions (s : trace) : list nat := flat_map extracted s.

(** The index that holds the documents of resources of a type. *)
Definition real_index (ty : t.ResourceType) : option Index :=
  match ty with
  | t.FileType => Some Indexes_Files
  | t.DirectoryType => Some Indexes_Directories
  | t.PartialType => Some Indexes_Partials
  | _ => None
  end.

(** The resource after [Stat] has written [st] into it. *)
Definition with_stat (r : t.AnnotatedResource) (st : t.Stat) : t.AnnotatedResource :=
  t.mkAnnotatedResource (t.resource r) (t.Source r) (t.reference r) st.

(** The two messages with which the guard of [Crawl] panics. *)
Definition guard_panic (msg : string) : Prop :=
  msg = "invalid protocol" \/ msg = "invalid type for crawler".



(** A computation only extends the trace, by events satisfying [E],
    and panics only with messages satisfying [Q]. *)
Definition emits (E : event -> Prop) (Q : string -> Prop) {A : Type} (m : M A) : Prop :=
  forall h, exists s,
    snd (m h) = h ++ s /\ Forall E s /\ (forall msg, fst (m h) = Panic msg -> Q msg).

(** A computation that deletes nothing and raises none of the guard's
    panics. *)
Definition tame {A : Type} (m : M A) : Prop :=
  emits (fun e => is_delete e = false) (fun msg => ~ guard_panic msg) m.

(** ** Worlds used as concrete inputs *)

(** A world in which every call succeeds: the clock reads [now], the
    random source draws [draw], the lookup answers [found], [Stat]
    answers [st] and [Ls] lists [children]. *)
Definition calm_world (now : Time) (draw : Z)
    (found : option (Index * indexTypes.Update)) (st : t.Stat)
    (children : list t.AnnotatedResource) : World :=
  mkWorld
    (fun _ => now)
    (fun _ _ => draw)
    (fun _ _ => (found, None))
    (fun _ _ _ _ => None)
    (fun _ _ _ _ => None)
    (fun _ _ _ => None)
    (fun _ _ _ _ => None)
    (fun _ _ => (st, None))
    (fun _ _ => mkLsRun (map Entry children) None false).

Definition sample_resource (id : string) (ty : t.ResourceType) (src : t.SourceType)
    (parent : option t.AnnotatedResource) (name : string) : t.AnnotatedResource :=
  t.mkAnnotatedResource (t.mkResource t.IPFSProtocol id) src
    (t.mkReference parent name) (t.mkStat ty 0).

Definition sample_config (maxDirSize : Z) : Config :=
  mkConfig 8 (3600 * Second) (60 * Second) (60 * Second) maxDirSize.

Definition sample_crawler (maxDirSize : Z) (draw : Z)
    (children : list t.AnnotatedResource) : Crawler :=
  mkCrawler (sample_config maxDirSize)
    (calm_world 5 draw None (t.mkStat t.FileType 1) children) [].

(** Variations of a world: a failing deletion, another answer of
    [Stat] or [Ls], a queue that refuses one CID. *)
Definition world_delete_fails (w : World) (e : t.error_value) : World :=
  mkWorld (time_Now w) (rand_Intn w) (index_Get w) (index_Index w) (index_Update w)
    (fun _ _ _ => Some e) (queue_Publish w) (protocol_Stat w) (protocol_Ls w).

Definition world_stat (w : World) (st : t.Stat) (err : error) : World :=
  mkWorld (time_Now w) (rand_Intn w) (index_Get w) (index_Index w) (index_Update w)
    (index_Delete w) (queue_Publish w) (fun _ _ => (st, err)) (protocol_Ls w).

Definition world_ls (w : World) (run : LsRun) : World :=
  mkWorld (time_Now w) (rand_Intn w) (index_Get w) (index_Index w) (index_Update w)
    (index_Delete w) (queue_Publish w) (protocol_Stat w) (fun _ _ => run).

Definition world_publish_refuses (w : World) (id : string) (e : t.error_value) : World :=
  mkWorld (time_Now w) (rand_Intn w) (index_Get w) (index_Index w) (index_Update w)
    (index_Delete w)
    (fun h q r p => if String.eqb (r_ID r) id then Some e else queue_Publish w h q r p)
    (protocol_Stat w) (protocol_Ls w).

Definition with_world (c : Crawler) (w : World) : Crawler :=
  mkCrawler (config c) w (extractors c).

Definition sample_undefined : t.AnnotatedResource :=
  sample_resource "QmU" t.UndefinedType t.SnifferSource None "".

(** A crawler whose lookup answers [found]. *)
Definition found_crawler (found : option (Index * indexTypes.Update)) : Crawler :=
  mkCrawler (sample_config 3) (calm_world 0 0 found (t.mkStat t.FileType 1) []) [].

Definition sample_directory : t.AnnotatedResource :=
  sample_resource "QmD" t.DirectoryType t.ManualSource None "".

(** Five children of [sample_directory]. *)
Definition sample_children : list t.AnnotatedResource :=
  [ sample_resource "QmA" t.FileType t.DirectorySource (Some sample_directory) "a";
    sample_resource "QmB" t.DirectoryType t.DirectorySource (Some sample_directory) "b";
    sample_resource "QmC" t.UndefinedType t.DirectorySource (Some sample_directory) "c";
    sample_resource "QmE" t.UnsupportedType t.DirectorySource (Some sample_directory) "e";
    sample_resource "QmG" t.FileType t.DirectorySource (Some sample_directory) "g" ].

(** Three extractors: one whose service answers with a malformed
    body, one that fills in a content type, and one that finds the
    file larger than its limit. *)
Definition failing_extractor : Extractor :=
  mkExtractor (fun _ _ f => (f, Some (t.Errorf_w_v ErrUnexpectedResponse (t.ErrorString "EOF")))).

Definition passing_extractor : Extractor :=
  mkExtractor (fun _ _ f =>
    (indexTypes.mkFile (indexTypes.File_Document f)
       (indexTypes.Metadata f ++ [("nsfw", "neutral")]), None)).

Definition too_large_extractor : Extractor :=
  mkExtractor (fun _ _ f => (f, Some (t.WrappedError ErrFileTooLarge "size 9 over limit 8"))).

Definition sample_file : t.AnnotatedResource :=
  sample_resource "QmF" t.FileType t.ManualSource None "".

(** An event source whose keys parse unless they end in [badcid] or
    [badpid], and whose emitter accepts one event and then fails. *)
Definition sample_source : eventsource.EventSource :=
  eventsource.mkEventSource
    (String.prefix "/providers/")
    (fun k => if String.eqb k "/providers/badcid"
              then inr (t.ErrorString "invalid cid") else inl "QmA")
    (fun k => if String.eqb k "/providers/badpid"
              then inr (t.ErrorString "invalid peer id") else inl "peerA")
    (fun bus _ => match bus with
                  | [] => None
                  | _ :: _ => Some (t.ErrorString "emitter closed")
                  end).

(** ** Properties *)

(** *** The effect monad *)

Section Emits.

Variable E : event -> Prop.
Variable Q : string -> Prop.

Lemma emits_ret {A : Type} (a : A) : emits E Q (ret a).
Proof.
  intros h. exists []. cbn. rewrite app_nil_r.
  repeat split; [constructor | discriminate].
Qed.

Lemma emits_panic {A : Type} (msg : string) : Q msg -> emits E Q (@panic A msg).
Proof.
  intros HQ h. exists []. cbn. rewrite app_nil_r.
  repeat split; [constructor | intros m Hm; inversion Hm; subst; exact HQ].
Qed.

Lemma emits_call {A : Type} (ev : event) (answer : trace -> A) :
  E ev -> emits E Q (call ev answer).
Proof.
  intros HE h. exists [ev]. cbn.
  repeat split; [repeat constructor; exact HE | discriminate].
Qed.

Lemma emits_bind {A B : Type} (m : M A) (k : A -> M B) :
  emits E Q m -> (forall a, emits E Q (k a)) -> emits E Q (bind m k).
Proof.
  intros Hm Hk h. unfold bind.
  destruct (Hm h) as (s & Hs & HE & HQ).
  destruct (m h) as [[a | msg] h'] eqn:Hmh; cbn in Hs; subst h'.
  - destruct (Hk a (h ++ s)) as (s' & Hs' & HE' & HQ').
    exists (s ++ s'). rewrite Hs', app_assoc.
    repeat split; [apply Forall_app; split; assumption | exact HQ'].
  - exists s. cbn. repeat split; [exact HE | ].
    intros msg' Hmsg. apply HQ. cbn. inversion Hmsg. reflexivity.
Qed.

End Emits.

(** *** What the crawler emits after the guard *)

Ltac emits_side :=
  first [ reflexivity
        | exact I
        | let H := fresh in intros [H | H]; discriminate H ].

Ltac emits_step :=
  lazymatch goal with
  | |- emits _ _ (ret _) => apply emits_ret
  | |- emits _ _ (panic _) => apply emits_panic; emits_side
  | |- emits _ _ (call _ _) => apply emits_call; emits_side
  | |- emits _ _ (bind _ _) => apply emits_bind; [ | intros; cbv beta ]
  | |- emits _ _ (match ?x with _ => _ end) => destruct x
  end.

Lemma makeDocument_emits (E : event -> Prop) (Q : string -> Prop) c r :
  E EvNow -> emits E Q (makeDocument c r).
Proof.
  intros HE. unfold makeDocument.
  apply emits_bind; [apply emits_call; exact HE | intros; apply emits_ret].
Qed.

Lemma indexInvalid_tame c r e : tame (indexInvalid c r e).
Proof. unfold tame, indexInvalid, Index_Index. emits_step. Qed.

Lemma getFileProperties_loop_tame es : forall n r f err,
  tame (getFileProperties_loop es n r f err).
Proof.
  unfold tame. induction es as [| e es IH]; intros n r f err; cbn [getFileProperties_loop].
  - emits_step.
  - emits_step; [emits_step | ].
    destruct a as [f' [v |]]; [destruct (errors_Is_value v ErrFileTooLarge) | ];
      first [apply IH | emits_step].
Qed.

Lemma getFileProperties_tame c r : tame (getFileProperties c r).
Proof.
  unfold tame, getFileProperties.
  emits_step; [apply makeDocument_emits; reflexivity | apply getFileProperties_loop_tame].
Qed.

Lemma addLink_tame e p : tame (addLink e p).
Proof.
  unfold tame, addLink, resourceToLinkType.
  emits_step; [repeat emits_step | emits_step].
Qed.

Lemma queueDirEntry_tame c r : tame (queueDirEntry c r).
Proof.
  unfold tame, queueDirEntry, Queue_Publish.
  emits_step; [emits_step | ].
  destruct (r_Type r); try emits_step. apply indexInvalid_tame.
Qed.

Lemma processDirEntries_loop_tame c entries : forall dirCnt isLarge p,
  tame (processDirEntries_loop c entries dirCnt isLarge p).
Proof.
  unfold tame. induction entries as [| [entry | err] entries IH]; intros dirCnt isLarge p;
    cbn [processDirEntries_loop]; try emits_step.
  - destruct (negb _); [apply addLink_tame | emits_step].
  - emits_step; [apply queueDirEntry_tame | ].
    destruct a0; [emits_step | apply IH].
Qed.

Lemma crawlDir_tame c r p : tame (crawlDir c r p).
Proof.
  unfold tame, crawlDir, processDirEntries.
  emits_step; [emits_step | ].
  emits_step; [ | destruct a0; emits_step ].
  emits_step; [apply processDirEntries_loop_tame | ].
  destruct a0 as [[err isLarge] p']. destruct (errors_Is_value _ _); emits_step.
Qed.

Lemma index_tame c r : tame (index c r).
Proof.
  unfold tame, index, getProperties, getDirectoryProperties, Index_Index.
  emits_step.
  - destruct (r_Type r); repeat emits_step.
    + apply getFileProperties_tame.
    + apply makeDocument_emits; reflexivity.
    + apply crawlDir_tame.
  - destruct a as [[idx p] [e |]].
    + destruct (errors_Is_value _ _); [apply indexInvalid_tame | emits_step].
    + destruct idx; emits_step.
Qed.

Lemma Crawl_new_tame c r : tame (Crawl_new c r).
Proof.
  unfold tame, Crawl_new, ensureType.
  emits_step.
  - destruct (r_Type r); repeat emits_step.
  - destruct a as [r' [e |]]; [ | apply index_tame].
    destruct (errors_Is_value _ _); [apply indexInvalid_tame | emits_step].
Qed.

Lemma processExisting_emits c i :
  emits (fun _ => True) (fun msg => msg = "Unexpected source") (processExisting c i).
Proof.
  unfold processExisting, processPartial, deletePartial, updateExisting,
    Index_Update, Index_Delete.
  destruct (item_Index i); repeat emits_step.
  all: try (destruct (t.Source _); repeat emits_step).
  all: try (destruct (appendReference _ _) as [refs []]; repeat emits_step).
  all: try (destruct (item_LastSeen i); [destruct (_ <? _) | ]; repeat emits_step).
  all: try (destruct (r_Parent _); repeat emits_step).
Qed.

Lemma updateMaybeExisting_emits c r :
  emits (fun _ => True) (fun msg => msg = "Unexpected source") (updateMaybeExisting c r).
Proof.
  unfold updateMaybeExisting, getExistingItem.
  emits_step; [emits_step | ].
  destruct a as [existing [e |]]; [emits_step | ].
  destruct existing as [i |]; [apply processExisting_emits | emits_step].
Qed.

Lemma emits_weaken (E E' : event -> Prop) (Q Q' : string -> Prop) {A : Type} (m : M A) :
  (forall e, E e -> E' e) -> (forall msg, Q msg -> Q' msg) ->
  emits E Q m -> emits E' Q' m.
Proof.
  intros HE HQ Hm h. destruct (Hm h) as (s & Hs & HEs & HQs).
  exists s. repeat split.
  - exact Hs.
  - eapply Forall_impl; [exact HE | exact HEs].
  - intros msg Hmsg. apply HQ, HQs, Hmsg.
Qed.

Lemma bind_assoc {A B C : Type} (m : M A) (f : A -> M B) (g : B -> M C) (h : trace) :
  bind (bind m f) g h = bind m (fun x => bind (f x) g) h.
Proof. unfold bind. destruct (m h) as [[a | msg] h']; reflexivity. Qed.

Lemma bind_call_starts (E : event -> Prop) (Q : string -> Prop) {A B : Type}
    (ev : event) (answer : trace -> A) (k : A -> M B) (h : trace) :
  (forall a, emits E Q (k a)) ->
  exists s, snd (bind (call ev answer) k h) = h ++ ev :: s.
Proof.
  intros Hk. unfold bind, call.
  destruct (Hk (answer h) (h ++ [ev])) as (s & Hs & _).
  exists s. rewrite Hs, <- app_assoc. reflexivity.
Qed.

(** *** The guard of [Crawl] *)

Lemma Crawl_tail_emits c r (exists_ : bool) (err : error) :
  emits (fun _ => True) (fun msg => ~ guard_panic msg)
    (match err with
     | Some e => ret (Some e)
     | None => if exists_ then ret None else Crawl_new c r
     end).
Proof.
  destruct err as [e |]; [apply emits_ret | ].
  destruct exists_; [apply emits_ret | ].
  eapply emits_weaken; [ | | apply Crawl_new_tame]; cbn; tauto.
Qed.

Lemma Crawl_guard_passes c r h :
  r_Protocol r <> t.InvalidProtocol ->
  isSupportedType (r_Type r) = true ->
  Crawl c r h =
  bind (updateMaybeExisting c r)
    (fun x => match x with
              | (exists_, err) =>
                  match err with
                  | Some e => ret (Some e)
                  | None => if (exists_ : bool) then ret None else Crawl_new c r
                  end
              end) h.
Proof.
  intros Hp Ht. unfold Crawl. rewrite Ht.
  destruct (r_Protocol r); [contradiction | reflexivity].
Qed.

Lemma isSupportedType_spec ty :
  isSupportedType ty = true <->
  ty = t.UndefinedType \/ ty = t.FileType \/ ty = t.DirectoryType.
Proof.
  destruct ty; cbn; split; intros H; try reflexivity; try discriminate; try tauto.
  all: destruct H as [H | [H | H]]; discriminate H.
Qed.

(** C8.  [Crawl] panics, leaving the trace as it was (so before any
    index read or write), whenever the protocol is [InvalidProtocol]
    or the type is none of [UndefinedType], [FileType],
    [DirectoryType]; on every other input the guard passes: [Crawl]
    goes on to look the resource up, and whatever panic may follow is
    not one of the guard's. *)
Theorem C8_Crawl_guard (c : Crawler) (r : t.AnnotatedResource) (h : trace) :
  (r_Protocol r = t.InvalidProtocol \/
   ~ (r_Type r = t.UndefinedType \/ r_Type r = t.FileType \/ r_Type r = t.DirectoryType) ->
   exists msg, guard_panic msg /\ Crawl c r h = (Panic msg, h))
  /\
  (r_Protocol r <> t.InvalidProtocol ->
   r_Type r = t.UndefinedType \/ r_Type r = t.FileType \/ r_Type r = t.DirectoryType ->
   (forall msg, fst (Crawl c r h) = Panic msg -> ~ guard_panic msg) /\
   (exists s, snd (Crawl c r h) = h ++ EvGetExisting r :: s)).
Proof.
  split.
  - intros Hbad. unfold Crawl.
    destruct (r_Protocol r) eqn:Hp.
    + exists "invalid protocol". split; [left; reflexivity | reflexivity].
    + destruct Hbad as [Hbad | Hbad]; [discriminate Hbad | ].
      destruct (isSupportedType (r_Type r)) eqn:Ht.
      * apply isSupportedType_spec in Ht. contradiction.
      * exists "invalid type for crawler". split; [right; reflexivity | reflexivity].
  - intros Hp Ht. apply isSupportedType_spec in Ht.
    rewrite (Crawl_guard_passes c r h Hp Ht). split.
    + assert (Hem : emits (fun _ => True) (fun msg => ~ guard_panic msg)
                (bind (updateMaybeExisting c r)
                   (fun x => match x with
                             | (exists_, err) =>
                                 match err with
                                 | Some e => ret (Some e)
                                 | None => if (exists_ : bool) then ret None else Crawl_new c r
                                 end
                             end))).
      { apply emits_bind.
        - eapply emits_weaken; [ | | apply updateMaybeExisting_emits];
            [cbn; tauto | intros msg -> [H | H]; discriminate H].
        - intros [exists_ err]. apply Crawl_tail_emits. }
      destruct (Hem h) as (s & _ & _ & HQ). exact HQ.
    + unfold updateMaybeExisting, getExistingItem. rewrite bind_assoc.
      apply (bind_call_starts (fun _ => True) (fun msg => ~ guard_panic msg)).
      intros [existing err]. apply emits_bind.
      * destruct err as [e |]; [apply emits_ret | ].
        destruct existing as [i |]; [ | apply emits_ret].
        eapply emits_weaken; [ | | apply processExisting_emits];
          [cbn; tauto | intros msg -> [H | H]; discriminate H].
      * intros [exists_ err']. apply Crawl_tail_emits.
Qed.

Lemma C8_Crawl_guard_witness :
  (exists msg, guard_panic msg /\
     Crawl (mkCrawler (sample_config 3) (calm_world 0 0 None (t.mkStat t.FileType 1) []) [])
       (sample_resource "QmP" t.PartialType t.ManualSource None "") [] = (Panic msg, []))
  /\
  (exists s,
     snd (Crawl (mkCrawler (sample_config 3) (calm_world 0 0 None (t.mkStat t.FileType 1) []) [])
            (sample_resource "QmF" t.FileType t.ManualSource None "") [])
     = [] ++ EvGetExisting (sample_resource "QmF" t.FileType t.ManualSource None "") :: s).
Proof.
  split.
  - apply (proj1 (C8_Crawl_guard _ (sample_resource "QmP" t.PartialType t.ManualSource None "") [])).
    right. cbn. intros [H | [H | H]]; discriminate H.
  - apply (proj2 (C8_Crawl_guard _ (sample_resource "QmF" t.FileType t.ManualSource None "") [])).
    + cbn. discriminate.
    + right. left. reflexivity.
Defined.

(** *** Resources that are already indexed *)

(** [Crawl] after the guard and the lookup: a lookup error is
    returned, a resource that is not indexed is crawled as new, and an
    indexed one is handed to [processExisting]. *)
Lemma Crawl_lookup c r h found err :
  r_Protocol r <> t.InvalidProtocol ->
  isSupportedType (r_Type r) = true ->
  index_Get (world c) h r = (found, err) ->
  Crawl c r h =
  match err, found with
  | Some e, _ => (Ret (Some e), h ++ [EvGetExisting r])
  | None, None => Crawl_new c r (h ++ [EvGetExisting r])
  | None, Some (idx, u) =>
      bind (processExisting c
              (mkExistingItem r idx (indexTypes.Update_References u)
                 (indexTypes.Update_LastSeen u)))
        (fun x => match x with
                  | (exists_, err) =>
                      match err with
                      | Some e => ret (Some e)
                      | None => if (exists_ : bool) then ret None else Crawl_new c r
                      end
                  end) (h ++ [EvGetExisting r])
  end.
Proof.
  intros Hp Ht Hget. rewrite (Crawl_guard_passes c r h Hp Ht).
  unfold updateMaybeExisting, getExistingItem, bind, call. rewrite Hget.
  destruct err as [e |]; [reflexivity | ].
  destruct found as [[idx u] |]; reflexivity.
Qed.

Lemma Reference_eqb_spec (a : indexTypes.Reference) (parentHash name : string) :
  Reference_eqb a parentHash name = true <-> a = indexTypes.mkReference parentHash name.
Proof.
  unfold Reference_eqb. destruct a as [ph n]. cbn.
  rewrite andb_true_iff, !String.eqb_eq. split.
  - intros [-> ->]. reflexivity.
  - intros H. inversion H. split; reflexivity.
Qed.

Lemma existsb_Reference_eqb (refs : indexTypes.References) (parentHash name : string) :
  existsb (fun a => Reference_eqb a parentHash name) refs = true <->
  In (indexTypes.mkReference parentHash name) refs.
Proof.
  rewrite existsb_exists. split.
  - intros (a & Hin & Heq). apply Reference_eqb_spec in Heq. subst a. exact Hin.
  - intros Hin. exists (indexTypes.mkReference parentHash name).
    split; [exact Hin | apply Reference_eqb_spec; reflexivity].
Qed.

Lemma appendReference_present refs (ref : t.Reference) parent :
  t.Parent ref = Some parent ->
  In (indexTypes.mkReference (r_ID parent) (t.Name ref)) refs ->
  appendReference refs ref = (refs, false).
Proof.
  intros Hp Hin. unfold appendReference. rewrite Hp.
  apply existsb_Reference_eqb in Hin. rewrite Hin. reflexivity.
Qed.

Lemma appendReference_absent refs (ref : t.Reference) parent :
  t.Parent ref = Some parent ->
  ~ In (indexTypes.mkReference (r_ID parent) (t.Name ref)) refs ->
  appendReference refs ref =
    (refs ++ [indexTypes.mkReference (r_ID parent) (t.Name ref)], true).
Proof.
  intros Hp Hin. unfold appendReference. rewrite Hp.
  destruct (existsb _ refs) eqn:Hex; [ | reflexivity].
  apply existsb_Reference_eqb in Hex. contradiction.
Qed.

Lemma appendReference_NoDup refs (ref : t.Reference) :
  NoDup refs -> NoDup (fst (appendReference refs ref)).
Proof.
  intros Hnd. unfold appendReference.
  destruct (t.Parent ref) as [parent |]; [ | exact Hnd].
  destruct (existsb _ refs) eqn:Hex; [exact Hnd | ]. cbn.
  apply NoDup_app; [exact Hnd | repeat constructor; intros [] | ].
  intros a Hin [Ha | []]. subst a.
  apply existsb_Reference_eqb in Hin. rewrite Hin in Hex. discriminate Hex.
Qed.

(** C4.  For an existing item re-seen with [Source = DirectorySource]
    and parent [parent]: the new references are the old ones, with the
    pair [(parent.ID, Name)] appended exactly when it was not among
    them, so a duplicate-free list stays duplicate-free; an update is
    issued exactly when the pair was new, and it carries the new
    references and no [LastSeen]. *)
Theorem C4_directory_source_adds_reference (c : Crawler) (i : existingItem)
    (parent : t.AnnotatedResource) (h : trace) :
  t.Source (item_AnnotatedResource i) = t.DirectorySource ->
  r_Parent (item_AnnotatedResource i) = Some parent ->
  let r := item_AnnotatedResource i in
  let pair := indexTypes.mkReference (r_ID parent) (r_Name r) in
  let refs' := fst (appendReference (item_References i) (t.reference r)) in
  (In pair (item_References i) ->
     refs' = item_References i /\
     updateExisting c i h = (Ret None, h))
  /\
  (~ In pair (item_References i) ->
     refs' = item_References i ++ [pair] /\
     updateExisting c i h =
       (Ret (index_Update (world c) h (item_Index i) (r_ID r)
               (indexTypes.mkUpdate None (item_References i ++ [pair]))),
        h ++ [EvUpdate (item_Index i) (r_ID r)
                (indexTypes.mkUpdate None (item_References i ++ [pair]))]))
  /\
  (NoDup (item_References i) -> NoDup refs').
Proof.
  intros Hsrc Hparent r pair refs'. subst r pair refs'.
  unfold r_Parent in Hparent. repeat split.
  - rewrite (appendReference_present _ _ _ Hparent H). reflexivity.
  - unfold updateExisting. rewrite Hsrc.
    rewrite (appendReference_present _ _ _ Hparent H). reflexivity.
  - rewrite (appendReference_absent _ _ _ Hparent H). reflexivity.
  - unfold updateExisting. rewrite Hsrc.
    rewrite (appendReference_absent _ _ _ Hparent H). reflexivity.
  - apply appendReference_NoDup.
Qed.

Lemma C4_directory_source_adds_reference_witness :
  updateExisting
    (mkCrawler (sample_config 3) (calm_world 0 0 None (t.mkStat t.FileType 1) []) [])
    (mkExistingItem
       (sample_resource "QmD" t.DirectoryType t.DirectorySource
          (Some (sample_resource "QmP2" t.DirectoryType t.SnifferSource None "")) "b")
       Indexes_Directories [indexTypes.mkReference "QmP1" "a"] (Some 0)) []
  = (Ret None,
     [EvUpdate Indexes_Directories "QmD"
        (indexTypes.mkUpdate None
           [indexTypes.mkReference "QmP1" "a"; indexTypes.mkReference "QmP2" "b"])]).
Proof.
  refine (proj2 (proj1 (proj2
    (C4_directory_source_adds_reference
       (mkCrawler (sample_config 3) (calm_world 0 0 None (t.mkStat t.FileType 1) []) [])
       (mkExistingItem
          (sample_resource "QmD" t.DirectoryType t.DirectorySource
             (Some (sample_resource "QmP2" t.DirectoryType t.SnifferSource None "")) "b")
          Indexes_Directories [indexTypes.mkReference "QmP1" "a"] (Some 0))
       (sample_resource "QmP2" t.DirectoryType t.SnifferSource None "") []
       eq_refl eq_refl)) _)).
  cbn. intros [H | []]. discriminate H.
Defined.

(** The truncated clock reading is a whole number of seconds. *)
Lemma Time_Truncate_Second_whole (a : Time) : (Time_Truncate a Second) mod Second = 0.
Proof.
  unfold Time_Truncate, Second. cbn [Z.leb Z.compare].
  rewrite Zminus_mod, Zmod_mod, Z.sub_diag. reflexivity.
Qed.

(** [Time.Sub] compared with a threshold below the largest duration
    agrees with the exact difference. *)
Lemma Time_Sub_exceeds (a u : Time) (d : Duration) :
  minDuration <= d < maxDuration ->
  (d < Time_Sub a u <-> d < a - u).
Proof.
  unfold Time_Sub, minDuration, maxDuration. intros Hd.
  destruct (a - u <? - 2 ^ 63) eqn:Hlo; [apply Z.ltb_lt in Hlo; lia | ].
  apply Z.ltb_ge in Hlo.
  destruct (2 ^ 63 - 1 <? a - u) eqn:Hhi; [apply Z.ltb_lt in Hhi; lia | lia].
Qed.

(** C5.  For an existing item re-seen with [Source = SnifferSource] or
    [UnknownSource], with [now] the clock reading truncated to whole
    seconds: if the stored [LastSeen] is nil or [now.Sub(LastSeen)]
    exceeds [MinUpdateAge], one update setting [LastSeen] to [now]
    (and nothing else) is issued; otherwise the clock is read and no
    write is issued.  The
    duration [now.Sub(LastSeen)] exceeds a [MinUpdateAge] below the
    largest duration exactly when the exact difference does. *)
Theorem C5_sniffer_source_refreshes_LastSeen (c : Crawler) (i : existingItem) (h : trace) :
  t.Source (item_AnnotatedResource i) = t.SnifferSource \/
  t.Source (item_AnnotatedResource i) = t.UnknownSource ->
  let r := item_AnnotatedResource i in
  let now := Time_Truncate (time_Now (world c) h) Second in
  let update := indexTypes.mkUpdate (Some now) [] in
  now mod Second = 0
  /\
  (item_LastSeen i = None \/
   (exists lastSeen, item_LastSeen i = Some lastSeen /\
                     MinUpdateAge (config c) < Time_Sub now lastSeen) ->
   updateExisting c i h =
     (Ret (index_Update (world c) (h ++ [EvNow]) (item_Index i) (r_ID r) update),
      h ++ [EvNow; EvUpdate (item_Index i) (r_ID r) update]))
  /\
  (forall lastSeen, item_LastSeen i = Some lastSeen ->
   Time_Sub now lastSeen <= MinUpdateAge (config c) ->
   updateExisting c i h = (Ret None, h ++ [EvNow]))
  /\
  (forall lastSeen, minDuration <= MinUpdateAge (config c) < maxDuration ->
   (MinUpdateAge (config c) < Time_Sub now lastSeen <->
    MinUpdateAge (config c) < now - lastSeen)).
Proof.
  intros Hsrc r now update. subst r now update.
  split; [apply Time_Truncate_Second_whole | ].
  split; [ | split].
  - intros Hcond. unfold updateExisting.
    destruct Hsrc as [Hs | Hs]; rewrite Hs; unfold bind, call, Index_Update.
    all: destruct Hcond as [Hnil | (lastSeen & Hls & Hgt)];
      [ rewrite Hnil | rewrite Hls; apply Z.ltb_lt in Hgt; rewrite Hgt ].
    all: unfold call; rewrite <- app_assoc; reflexivity.
  - intros lastSeen Hls Hle.
    apply Z.ltb_ge in Hle. unfold updateExisting.
    destruct Hsrc as [Hs | Hs]; rewrite Hs; unfold bind, call; rewrite Hls, Hle; reflexivity.
  - intros lastSeen Hrange. apply Time_Sub_exceeds. exact Hrange.
Qed.

Lemma C5_sniffer_source_refreshes_LastSeen_witness :
  updateExisting
    (mkCrawler (sample_config 3)
       (calm_world (7200 * Second + 500000000) 0 None (t.mkStat t.FileType 1) []) [])
    (mkExistingItem (sample_resource "QmF" t.FileType t.SnifferSource None "")
       Indexes_Files [] (Some 0)) []
  = (Ret None,
     [EvNow; EvUpdate Indexes_Files "QmF" (indexTypes.mkUpdate (Some (7200 * Second)) [])])
  /\
  updateExisting
    (mkCrawler (sample_config 3)
       (calm_world (1800 * Second + 500000000) 0 None (t.mkStat t.FileType 1) []) [])
    (mkExistingItem (sample_resource "QmF" t.FileType t.UnknownSource None "")
       Indexes_Files [] (Some 0)) []
  = (Ret None, [EvNow]).
Proof.
  split.
  - refine (proj1 (proj2
      (C5_sniffer_source_refreshes_LastSeen
         (mkCrawler (sample_config 3)
            (calm_world (7200 * Second + 500000000) 0 None (t.mkStat t.FileType 1) []) [])
         (mkExistingItem (sample_resource "QmF" t.FileType t.SnifferSource None "")
            Indexes_Files [] (Some 0)) [] (or_introl eq_refl))) _).
    right. exists 0. split; [reflexivity | vm_compute; reflexivity].
  - refine (proj1 (proj2 (proj2
      (C5_sniffer_source_refreshes_LastSeen
         (mkCrawler (sample_config 3)
            (calm_world (1800 * Second + 500000000) 0 None (t.mkStat t.FileType 1) []) [])
         (mkExistingItem (sample_resource "QmF" t.FileType t.UnknownSource None "")
            Indexes_Files [] (Some 0)) [] (or_intror eq_refl)))) 0 eq_refl _).
    vm_compute. discriminate.
Defined.

(** The age test of [updateExisting] reads the truncated clock: half a
    second past [MinUpdateAge] the untruncated age exceeds it, the
    truncated one does not, and nothing is written. *)
Example updateExisting_age_of_truncated_clock :
  let now := 3600 * Second + 500000000 in
  MinUpdateAge (sample_config 3) < now - 0 /\
  updateExisting
    (mkCrawler (sample_config 3) (calm_world now 0 None (t.mkStat t.FileType 1) []) [])
    (mkExistingItem (sample_resource "QmF" t.FileType t.SnifferSource None "")
       Indexes_Files [] (Some 0)) []
  = (Ret None, [EvNow]).
Proof. split; [vm_compute; reflexivity | reflexivity]. Qed.

(** C10.  An item found in the Files or Directories index and re-seen
    with [Source = DirectorySource] but a nil [Reference.Parent]:
    [appendReference] reports no change, [updateExisting] issues no
    update and returns nil, and [Crawl] ends after the lookup,
    returning nil: no event follows the lookup, so nothing is
    written. *)
Theorem C10_directory_source_without_parent (c : Crawler) (r : t.AnnotatedResource)
    (h : trace) (idx : Index) (u : indexTypes.Update) :
  r_Protocol r <> t.InvalidProtocol ->
  isSupportedType (r_Type r) = true ->
  index_Get (world c) h r = (Some (idx, u), None) ->
  idx = Indexes_Files \/ idx = Indexes_Directories ->
  t.Source r = t.DirectorySource ->
  r_Parent r = None ->
  let i := mkExistingItem r idx (indexTypes.Update_References u)
             (indexTypes.Update_LastSeen u) in
  appendReference (item_References i) (t.reference r) = (item_References i, false)
  /\ (forall h', updateExisting c i h' = (Ret None, h'))
  /\ (forall h', processExisting c i h' = (Ret (true, None), h'))
  /\ Crawl c r h = (Ret None, h ++ [EvGetExisting r]).
Proof.
  intros Hp Ht Hget Hidx Hsrc Hparent i.
  assert (Happ : appendReference (item_References i) (t.reference r)
                 = (item_References i, false)).
  { unfold appendReference. unfold r_Parent in Hparent. rewrite Hparent. reflexivity. }
  assert (Hupd : forall h', updateExisting c i h' = (Ret None, h')).
  { intros h'. unfold updateExisting. cbn [item_AnnotatedResource i].
    subst i. cbn [item_AnnotatedResource]. rewrite Hsrc.
    cbn [item_References] in *. rewrite Happ. reflexivity. }
  assert (Hproc : forall h', processExisting c i h' = (Ret (true, None), h')).
  { intros h'. unfold processExisting, bind.
    destruct Hidx as [-> | ->]; cbn [item_Index i]; rewrite Hupd; reflexivity. }
  repeat split; try assumption.
  rewrite (Crawl_lookup c r h _ _ Hp Ht Hget). fold i.
  unfold bind. rewrite Hproc. reflexivity.
Qed.

Lemma C10_directory_source_without_parent_witness :
  Crawl
    (mkCrawler (sample_config 3)
       (calm_world 0 0
          (Some (Indexes_Files, indexTypes.mkUpdate (Some 0) [indexTypes.mkReference "QmP1" "a"]))
          (t.mkStat t.FileType 1) []) [])
    (sample_resource "QmF" t.FileType t.DirectorySource None "a") []
  = (Ret None, [] ++ [EvGetExisting (sample_resource "QmF" t.FileType t.DirectorySource None "a")]).
Proof.
  refine (proj2 (proj2 (proj2
    (C10_directory_source_without_parent
       (mkCrawler (sample_config 3)
          (calm_world 0 0
             (Some (Indexes_Files,
                    indexTypes.mkUpdate (Some 0) [indexTypes.mkReference "QmP1" "a"]))
             (t.mkStat t.FileType 1) []) [])
       (sample_resource "QmF" t.FileType t.DirectorySource None "a") []
       Indexes_Files (indexTypes.mkUpdate (Some 0) [indexTypes.mkReference "QmP1" "a"])
       _ eq_refl eq_refl (or_introl eq_refl) eq_refl eq_refl)))).
  cbn. discriminate.
Defined.

Lemma count_none (p : event -> bool) (s : trace) :
  Forall (fun e => p e = false) s -> count p s = 0%nat.
Proof.
  unfold count. induction 1 as [| e s He _ IH]; cbn; [reflexivity | ].
  rewrite He. exact IH.
Qed.

(** A resource that no index holds is crawled as new. *)
Lemma Crawl_not_indexed c r h :
  r_Protocol r <> t.InvalidProtocol ->
  isSupportedType (r_Type r) = true ->
  index_Get (world c) h r = (None, None) ->
  Crawl c r h = Crawl_new c r (h ++ [EvGetExisting r]).
Proof. intros Hp Ht Hget. rewrite (Crawl_lookup c r h _ _ Hp Ht Hget). reflexivity. Qed.

(** A resource whose type is known is indexed without a [Stat]. *)
Lemma Crawl_new_typed c r h :
  r_Type r <> t.UndefinedType -> Crawl_new c r h = index c r h.
Proof.
  intros Hty. unfold Crawl_new, ensureType, bind.
  destruct (r_Type r); try reflexivity. contradiction.
Qed.

Lemma getProperties_tame c r : tame (getProperties c r).
Proof.
  unfold tame, getProperties, getDirectoryProperties.
  destruct (r_Type r); repeat emits_step.
  - apply getFileProperties_tame.
  - apply makeDocument_emits; reflexivity.
  - apply crawlDir_tame.
Qed.

(** When [getProperties] returns without error, the index it names is
    the one of the resource's type, and the trace has only grown. *)
Lemma getProperties_without_error c r h idx p h' :
  getProperties c r h = (Ret (idx, p, None), h') ->
  idx = real_index (r_Type r) /\ idx <> None /\ exists s, h' = h ++ s.
Proof.
  intros Hrun.
  assert (Hext : exists s, h' = h ++ s).
  { destruct (getProperties_tame c r h) as (s & Hs & _).
    rewrite Hrun in Hs. cbn in Hs. exists s. exact Hs. }
  assert (Hidx : idx = real_index (r_Type r) /\ idx <> None).
  { unfold getProperties, bind in Hrun. unfold real_index.
    destruct (r_Type r).
    - discriminate Hrun.
    - destruct (getFileProperties c r h) as [[[f e] | msg] hh]; cbn in Hrun;
        inversion Hrun. split; [reflexivity | discriminate].
    - destruct (getDirectoryProperties c r h) as [[[d e] | msg] hh]; cbn in Hrun;
        inversion Hrun. split; [reflexivity | discriminate].
    - cbn in Hrun. inversion Hrun. split; [reflexivity | discriminate].
    - cbn in Hrun. discriminate Hrun. }
  destruct Hidx as [Hidx Hsome]. repeat split; assumption.
Qed.

(** [index] once [getProperties] has returned without error: one
    write, into the index of the resource's type. *)
Lemma index_without_error c r h idx p h' :
  getProperties c r h = (Ret (idx, p, None), h') ->
  exists i s,
    real_index (r_Type r) = Some i
    /\ index c r h =
         (Ret (index_Index (world c) (h ++ s) i (r_ID r) p),
          h ++ s ++ [EvIndex i (r_ID r) p]).
Proof.
  intros Hrun.
  destruct (getProperties_without_error c r h idx p h' Hrun) as (Hidx & Hsome & s & Hs).
  destruct idx as [i |]; [ | contradiction].
  exists i, s. split; [symmetry; exact Hidx | ].
  unfold index, bind. rewrite Hrun. unfold Index_Index, call.
  rewrite Hs, <- app_assoc. reflexivity.
Qed.

(** C3.  For a resource found in the Partials index: with a nil
    [Reference.Parent], [Crawl] ends after the lookup and writes
    nothing; with a non-nil one, the next event is the deletion of the
    CID from the Partials index and no other deletion follows.  Once
    that deletion has returned nil, [Crawl] goes on as for a resource
    that is not indexed: a resource without a type is probed with
    [Stat] right after the deletion, and when the properties of the
    (probed) resource are obtained without error, the last event
    writes them under the CID into the index of its type. *)
Theorem C3_partial_resolution (c : Crawler) (r : t.AnnotatedResource) (h : trace)
    (u : indexTypes.Update) :
  r_Protocol r <> t.InvalidProtocol ->
  isSupportedType (r_Type r) = true ->
  index_Get (world c) h r = (Some (Indexes_Partials, u), None) ->
  let h1 := h ++ [EvGetExisting r] in
  let del := EvDelete Indexes_Partials (r_ID r) in
  (r_Parent r = None -> Crawl c r h = (Ret None, h1))
  /\
  (r_Parent r <> None ->
   (exists s, snd (Crawl c r h) = h1 ++ del :: s /\ count is_delete s = 0%nat)
   /\
   (index_Delete (world c) h1 Indexes_Partials (r_ID r) = None ->
    Crawl c r h = Crawl_new c r (h1 ++ [del])
    /\
    (r_Type r = t.UndefinedType ->
     (exists s, snd (Crawl c r h) = h1 ++ del :: EvStat r :: s)
     /\
     (forall st idx p h',
        protocol_Stat (world c) (h1 ++ [del]) r = (st, None) ->
        getProperties c (with_stat r st) (h1 ++ [del; EvStat r]) = (Ret (idx, p, None), h') ->
        exists i s,
          real_index (t.Type_ st) = Some i
          /\ Crawl c r h =
               (Ret (index_Index (world c) (h1 ++ del :: EvStat r :: s) i (r_ID r) p),
                h1 ++ del :: EvStat r :: s ++ [EvIndex i (r_ID r) p])))
    /\
    (r_Type r <> t.UndefinedType ->
     forall idx p h',
       getProperties c r (h1 ++ [del]) = (Ret (idx, p, None), h') ->
       exists i s,
         real_index (r_Type r) = Some i
         /\ Crawl c r h =
              (Ret (index_Index (world c) (h1 ++ del :: s) i (r_ID r) p),
               h1 ++ del :: s ++ [EvIndex i (r_ID r) p])))).
Proof.
  intros Hp Ht Hget h1 del.
  assert (Hcrawl : r_Parent r <> None ->
            Crawl c r h =
            match index_Delete (world c) h1 Indexes_Partials (r_ID r) with
            | Some e => (Ret (Some e), h1 ++ [del])
            | None => Crawl_new c r (h1 ++ [del])
            end).
  { intros Hparent. rewrite (Crawl_lookup c r h _ _ Hp Ht Hget). fold h1.
    unfold processExisting, processPartial, deletePartial, Index_Delete, bind, call.
    cbn [item_Index item_AnnotatedResource]. fold del.
    destruct (r_Parent r); [ | contradiction].
    destruct (index_Delete (world c) h1 Indexes_Partials (r_ID r)); reflexivity. }
  split.
  - intros Hparent. rewrite (Crawl_lookup c r h _ _ Hp Ht Hget). fold h1.
    unfold processExisting, processPartial. cbn [item_Index item_AnnotatedResource].
    rewrite Hparent. reflexivity.
  - intros Hparent. rewrite (Hcrawl Hparent). clear Hcrawl.
    destruct (index_Delete (world c) h1 Indexes_Partials (r_ID r)) as [e |].
    + split; [ | discriminate].
      exists []. cbn. split; reflexivity.
    + split.
      { destruct (Crawl_new_tame c r (h1 ++ [del])) as (s & Hs & HE & _).
        exists s. split.
        - rewrite Hs, <- app_assoc. reflexivity.
        - apply count_none. exact HE. }
      intros _. split; [reflexivity | ]. split.
      * intros Hty. split.
        -- unfold Crawl_new, ensureType. rewrite Hty. rewrite bind_assoc.
           destruct (bind_call_starts (fun e => is_delete e = false)
                       (fun msg => ~ guard_panic msg) (EvStat r)
                       (fun h0 => protocol_Stat (world c) h0 r)
                       (fun x =>
                          bind ((let '(st, err) := x in
                                 ret (t.mkAnnotatedResource (t.resource r) (t.Source r)
                                        (t.reference r) st, err)))
                            (fun x0 =>
                               let '(r0, err) := x0 in
                               match err with
                               | Some e =>
                                   if errors_Is_value e ErrInvalidResource
                                   then indexInvalid c r0 e
                                   else ret (Some e)
                               | None => index c r0
                               end))
                       (h1 ++ [del])) as (s & Hs).
           { intros [st err]. apply emits_bind; [apply emits_ret | ].
             intros [r0 [e |]]; [ | apply index_tame].
             destruct (errors_Is_value e ErrInvalidResource);
               [apply indexInvalid_tame | apply emits_ret]. }
           exists s. rewrite Hs, <- app_assoc. reflexivity.
        -- intros st idx p h' Hstat Hprops.
           destruct (index_without_error c (with_stat r st) _ idx p h' Hprops)
             as (i & s & Hreal & Hindex).
           exists i, s. split; [exact Hreal | ].
           unfold Crawl_new, ensureType. rewrite Hty.
           unfold bind, call. rewrite Hstat. unfold ret at 1. cbv beta iota.
           rewrite <- app_assoc. cbn [app]. fold (with_stat r st).
           rewrite Hindex. rewrite <- !app_assoc. reflexivity.
      * intros Hty idx p h' Hprops.
        destruct (index_without_error c r _ idx p h' Hprops) as (i & s & Hreal & Hindex).
        exists i, s. split; [exact Hreal | ].
        rewrite (Crawl_new_typed c r _ Hty), Hindex. rewrite <- !app_assoc. reflexivity.
Qed.

Lemma C3_partial_resolution_witness :
  Crawl (found_crawler (Some (Indexes_Partials, indexTypes.mkUpdate None [])))
    (sample_resource "QmX" t.FileType t.SnifferSource None "") []
  = (Ret None, [] ++ [EvGetExisting (sample_resource "QmX" t.FileType t.SnifferSource None "")])
  /\
  exists i s,
    real_index t.FileType = Some i
    /\ Crawl (found_crawler (Some (Indexes_Partials, indexTypes.mkUpdate None [])))
         (sample_resource "QmX" t.UndefinedType t.DirectorySource (Some sample_directory) "x")
         []
       = (Ret None,
          ([] ++ [EvGetExisting
                    (sample_resource "QmX" t.UndefinedType t.DirectorySource
                       (Some sample_directory) "x")])
          ++ EvDelete Indexes_Partials "QmX"
          :: EvStat (sample_resource "QmX" t.UndefinedType t.DirectorySource
                       (Some sample_directory) "x")
          :: s ++
          [EvIndex i "QmX"
             (PFile (indexTypes.mkFile
                       (indexTypes.mkDocument 0 0 [indexTypes.mkReference "QmD" "x"] 1) []))]).
Proof.
  split.
  - refine (proj1
      (C3_partial_resolution
         (found_crawler (Some (Indexes_Partials, indexTypes.mkUpdate None [])))
         (sample_resource "QmX" t.FileType t.SnifferSource None "") []
         (indexTypes.mkUpdate None []) _ eq_refl eq_refl) eq_refl).
    cbn. discriminate.
  - refine (proj2 (proj1 (proj2 (proj2 (proj2
      (C3_partial_resolution
         (found_crawler (Some (Indexes_Partials, indexTypes.mkUpdate None [])))
         (sample_resource "QmX" t.UndefinedType t.DirectorySource (Some sample_directory) "x")
         [] (indexTypes.mkUpdate None []) _ eq_refl eq_refl) _) eq_refl)) eq_refl)
      (t.mkStat t.FileType 1) (Some Indexes_Files)
      (PFile (indexTypes.mkFile
                (indexTypes.mkDocument 0 0 [indexTypes.mkReference "QmD" "x"] 1) []))
      _ eq_refl eq_refl).
    + cbn. discriminate.
    + cbn. discriminate.
Defined.

(** A referenced partial that turns out to be a file: one deletion from
    the Partials index, then one document in the Files index, carrying
    the reference to the parent. *)
Example Crawl_referenced_partial :
  Crawl
    (mkCrawler (sample_config 3)
       (calm_world 5 0 (Some (Indexes_Partials, indexTypes.mkUpdate None []))
          (t.mkStat t.FileType 1) []) [])
    (sample_resource "QmX" t.FileType t.DirectorySource
       (Some (sample_resource "QmP" t.DirectoryType t.SnifferSource None "")) "x") []
  = (Ret None,
     [EvGetExisting
        (sample_resource "QmX" t.FileType t.DirectorySource
           (Some (sample_resource "QmP" t.DirectoryType t.SnifferSource None "")) "x");
      EvDelete Indexes_Partials "QmX";
      EvNow;
      EvIndex Indexes_Files "QmX"
        (PFile (indexTypes.mkFile
                  (indexTypes.mkDocument 0 0 [indexTypes.mkReference "QmP" "x"] 0) []))]).
Proof. reflexivity. Qed.

(** *** Queueing the children of a directory *)

(** C7.  [queueDirEntry] draws [rand.Intn(7)] once per call and uses
    one plus the draw as priority, whatever the child and its parent
    are: the priority lies in 1..7, and each value of 1..7 comes from
    exactly one of the seven draws, so a uniform draw gives a uniform
    priority.  The child goes to the Hashes, Files or Directories
    queue by its type; an unsupported child is not published but
    written to the Invalids index with the unsupported-type error. *)
Theorem C7_queueDirEntry_dispatch (c : Crawler) (r : t.AnnotatedResource) (h : trace) :
  let n := rand_Intn (world c) h 7 in
  let priority := uint8 (1 + n) in
  let h1 := h ++ [EvIntn 7] in
  0 <= n < 7 ->
  (1 <= priority <= 7 /\ priority = 1 + n)
  /\ (forall p, 1 <= p <= 7 -> forall d, 0 <= d < 7 -> (uint8 (1 + d) = p <-> d = p - 1))
  /\ (r_Type r = t.UndefinedType ->
      queueDirEntry c r h =
        (Ret (queue_Publish (world c) h1 Queues_Hashes r priority),
         h1 ++ [EvPublish Queues_Hashes r priority]))
  /\ (r_Type r = t.FileType ->
      queueDirEntry c r h =
        (Ret (queue_Publish (world c) h1 Queues_Files r priority),
         h1 ++ [EvPublish Queues_Files r priority]))
  /\ (r_Type r = t.DirectoryType ->
      queueDirEntry c r h =
        (Ret (queue_Publish (world c) h1 Queues_Directories r priority),
         h1 ++ [EvPublish Queues_Directories r priority]))
  /\ (r_Type r = t.UnsupportedType ->
      queueDirEntry c r h =
        (Ret (index_Index (world c) h1 Indexes_Invalids (r_ID r)
                (PInvalid (indexTypes.mkInvalid (Error ErrUnsupportedType)))),
         h1 ++ [EvIndex Indexes_Invalids (r_ID r)
                  (PInvalid (indexTypes.mkInvalid (Error ErrUnsupportedType)))])).
Proof.
  intros n priority h1 Hn. subst priority h1.
  assert (Hwrap : forall d, 0 <= d < 7 -> uint8 (1 + d) = 1 + d).
  { intros d Hd. unfold uint8. apply Z.mod_small. lia. }
  split; [rewrite (Hwrap n Hn); lia | ].
  split; [intros p Hp d Hd; rewrite (Hwrap d Hd); lia | ].
  unfold queueDirEntry, bind, call, Queue_Publish, indexInvalid, Index_Index. fold n.
  repeat split; intros Hty; rewrite Hty; reflexivity.
Qed.

Lemma C7_queueDirEntry_dispatch_witness :
  queueDirEntry
    (mkCrawler (sample_config 3) (calm_world 0 4 None (t.mkStat t.FileType 1) []) [])
    (sample_resource "QmU" t.UnsupportedType t.DirectorySource None "u") []
  = (Ret None,
     ([] ++ [EvIntn 7]) ++
     [EvIndex Indexes_Invalids "QmU"
        (PInvalid (indexTypes.mkInvalid (Error ErrUnsupportedType)))])
  /\
  queueDirEntry
    (mkCrawler (sample_config 3) (calm_world 0 4 None (t.mkStat t.FileType 1) []) [])
    (sample_resource "QmF" t.FileType t.DirectorySource None "f") []
  = (Ret None,
     ([] ++ [EvIntn 7]) ++
     [EvPublish Queues_Files (sample_resource "QmF" t.FileType t.DirectorySource None "f") 5]).
Proof.
  split.
  - refine (proj2 (proj2 (proj2 (proj2 (proj2
      (C7_queueDirEntry_dispatch
         (mkCrawler (sample_config 3) (calm_world 0 4 None (t.mkStat t.FileType 1) []) [])
         (sample_resource "QmU" t.UnsupportedType t.DirectorySource None "u") [] _)))))
      eq_refl).
    cbn. lia.
  - refine (proj1 (proj2 (proj2 (proj2
      (C7_queueDirEntry_dispatch
         (mkCrawler (sample_config 3) (calm_world 0 4 None (t.mkStat t.FileType 1) []) [])
         (sample_resource "QmF" t.FileType t.DirectorySource None "f") [] _))))
      eq_refl).
    cbn. lia.
Defined.

(** *** The directory cutoff *)

Lemma queueDirEntry_not_partial c e h :
  fst (queueDirEntry c e h) = Ret None -> r_Type e <> t.PartialType.
Proof.
  unfold queueDirEntry, bind, call. intros Hq Hty. rewrite Hty in Hq. discriminate Hq.
Qed.

Lemma addLink_link_of e p h :
  r_Type e <> t.PartialType ->
  addLink e p h =
    (Ret (indexTypes.mkDirectory (indexTypes.Directory_Document p)
            (indexTypes.Links p ++ [link_of e])), h).
Proof.
  intros Hty. unfold addLink, resourceToLinkType, link_of, bind.
  destruct (r_Type e); try reflexivity. contradiction.
Qed.

Lemma queueDirEntry_run c e h :
  fst (queueDirEntry c e h) = Ret None ->
  queueDirEntry c e h = (Ret None, snd (queueDirEntry c e h)).
Proof. intros Hq. destruct (queueDirEntry c e h) as [o h']. cbn in *. subst o. reflexivity. Qed.










(** The same crawl, evaluated: five children handed on, three of them
    published, no Directories document. *)
Example index_large_directory :
  index (sample_crawler 3 3 sample_children) sample_directory [] =
  (Ret None,
   [EvNow; EvLs sample_directory;
    EvIntn 7; EvPublish Queues_Files (nth 0 sample_children sample_directory) 4;
    EvIntn 7; EvPublish Queues_Directories (nth 1 sample_children sample_directory) 4;
    EvIntn 7; EvPublish Queues_Hashes (nth 2 sample_children sample_directory) 4;
    EvIntn 7; EvIndex Indexes_Invalids "QmE"
                (PInvalid (indexTypes.mkInvalid "unsupported type: invalid resource"));
    EvIntn 7; EvPublish Queues_Files (nth 4 sample_children sample_directory) 4;
    EvIndex Indexes_Invalids "QmD"
      (PInvalid (indexTypes.mkInvalid "directory too large: invalid resource"))]).
Proof. reflexivity. Qed.

(** *** [MaxDirSize = 0] *)




(** *** The extractor chain *)

Lemma getFileProperties_loop_end n r f err h :
  getFileProperties_loop [] n r f err h = (Ret (PFile f, err), h).
Proof. reflexivity. Qed.

(** An extractor that fails with the file-too-large error ends the
    chain: the extractors after it are not invoked. *)
Lemma getFileProperties_loop_stops e es n r f err h f' v :
  Extract e h r f = (f', Some v) ->
  errors_Is_value v ErrFileTooLarge = true ->
  getFileProperties_loop (e :: es) n r f err h =
    (Ret (PNil, Some (t.Errorf_w_v ErrInvalidResource v)), h ++ [EvExtract n r f]).
Proof.
  intros He Hv. cbn [getFileProperties_loop]. unfold bind, call. rewrite He, Hv. reflexivity.
Qed.

(** After any other answer the chain goes on, and the error variable
    holds what this extractor returned until the next one returns. *)
Lemma getFileProperties_loop_continues e es n r f err h f' err' :
  Extract e h r f = (f', err') ->
  errors_Is err' ErrFileTooLarge = false ->
  getFileProperties_loop (e :: es) n r f err h =
    getFileProperties_loop es (S n) r f' err' (h ++ [EvExtract n r f]).
Proof.
  intros He Hv. cbn [getFileProperties_loop]. unfold bind, call. rewrite He.
  destruct err' as [v |]; [cbn in Hv; rewrite Hv | ]; reflexivity.
Qed.

(** A file that an extractor finds too large goes to the Invalids
    index, and the extractor after it is not invoked. *)
Example index_file_too_large :
  index (mkCrawler (sample_config 3) (calm_world 5 0 None (t.mkStat t.FileType 1) [])
           [passing_extractor; too_large_extractor; passing_extractor])
    sample_file []
  = (Ret None,
     [EvNow;
      EvExtract 0 sample_file (indexTypes.mkFile (indexTypes.mkDocument 0 0 [] 0) []);
      EvExtract 1 sample_file
        (indexTypes.mkFile (indexTypes.mkDocument 0 0 [] 0) [("nsfw", "neutral")]);
      EvIndex Indexes_Invalids "QmF"
        (PInvalid (indexTypes.mkInvalid
           "invalid resource: size 9 over limit 8: file too large"))]).
Proof. reflexivity. Qed.

(** The error of the last extractor is returned, and nothing is
    written. *)
Example index_last_extractor_fails :
  index (mkCrawler (sample_config 3) (calm_world 5 0 None (t.mkStat t.FileType 1) [])
           [passing_extractor; failing_extractor])
    sample_file []
  = (Ret (Some (t.Errorf_w_v ErrUnexpectedResponse (t.ErrorString "EOF"))),
     [EvNow;
      EvExtract 0 sample_file (indexTypes.mkFile (indexTypes.mkDocument 0 0 [] 0) []);
      EvExtract 1 sample_file
        (indexTypes.mkFile (indexTypes.mkDocument 0 0 [] 0) [("nsfw", "neutral")])]).
Proof. reflexivity. Qed.

(** C2.  The error of an extractor that is not the last one is lost:
    here the first extractor fails with an unexpected response, which
    is not the file-too-large error, the second succeeds, and [index]
    writes a Files document and returns nil. *)
Theorem C2_extractor_error_overwritten :
  errors_Is (snd (Extract failing_extractor [] sample_file
                    (indexTypes.mkFile (indexTypes.mkDocument 0 0 [] 0) [])))
    ErrFileTooLarge = false
  /\
  index (mkCrawler (sample_config 3) (calm_world 5 0 None (t.mkStat t.FileType 1) [])
           [failing_extractor; passing_extractor])
    sample_file []
  = (Ret None,
     [EvNow;
      EvExtract 0 sample_file (indexTypes.mkFile (indexTypes.mkDocument 0 0 [] 0) []);
      EvExtract 1 sample_file (indexTypes.mkFile (indexTypes.mkDocument 0 0 [] 0) []);
      EvIndex Indexes_Files "QmF"
        (PFile (indexTypes.mkFile (indexTypes.mkDocument 0 0 [] 0) [("nsfw", "neutral")]))]).
Proof. split; reflexivity. Qed.

(** *** More on resources that are already indexed *)

(** X1.  Adding a reference a second time changes nothing:
    [appendReference] only ever extends the list, by at most one
    reference, and on its own result it reports no change; so an item
    re-seen from the same directory after its update has been applied
    is not updated again. *)
Theorem appendReference_idempotent (c : Crawler) (i : existingItem) (h : trace) :
  let r := item_AnnotatedResource i in
  let refs' := fst (appendReference (item_References i) (t.reference r)) in
  appendReference refs' (t.reference r) = (refs', false)
  /\ (exists added, refs' = item_References i ++ added /\ (List.length added <= 1)%nat)
  /\ (t.Source r = t.DirectorySource ->
      updateExisting c
        (mkExistingItem r (item_Index i) refs' (item_LastSeen i)) h = (Ret None, h)).
Proof.
  intros r refs'. subst r refs'.
  assert (Hidem : appendReference
            (fst (appendReference (item_References i) (t.reference (item_AnnotatedResource i))))
            (t.reference (item_AnnotatedResource i))
          = (fst (appendReference (item_References i) (t.reference (item_AnnotatedResource i))),
             false)).
  { unfold appendReference.
    destruct (t.Parent (t.reference (item_AnnotatedResource i))) as [parent |]; [ | reflexivity].
    destruct (existsb _ (item_References i)) eqn:Hex; cbn [fst].
    - rewrite Hex. reflexivity.
    - rewrite existsb_app. cbn [existsb]. unfold Reference_eqb at 2. cbn.
      rewrite !String.eqb_refl. cbn. rewrite orb_true_r. reflexivity. }
  split; [exact Hidem | ]. split.
  - unfold appendReference.
    destruct (t.Parent _) as [parent |]; [ | exists []; rewrite app_nil_r; split; [reflexivity | cbn; lia]].
    destruct (existsb _ _); cbn [fst].
    + exists []. rewrite app_nil_r. split; [reflexivity | cbn; lia].
    + eexists. split; [reflexivity | cbn; lia].
  - intros Hsrc. unfold updateExisting. cbn [item_AnnotatedResource item_References].
    rewrite Hsrc, Hidem. reflexivity.
Qed.

Lemma appendReference_idempotent_witness :
  updateExisting (sample_crawler 3 0 [])
    (mkExistingItem
       (sample_resource "QmD" t.DirectoryType t.DirectorySource (Some sample_directory) "b")
       Indexes_Directories
       [indexTypes.mkReference "QmP1" "a"; indexTypes.mkReference "QmD" "b"]
       (Some 0)) []
  = (Ret None, []).
Proof.
  exact (proj2 (proj2
    (appendReference_idempotent (sample_crawler 3 0 [])
       (mkExistingItem
          (sample_resource "QmD" t.DirectoryType t.DirectorySource (Some sample_directory) "b")
          Indexes_Directories [indexTypes.mkReference "QmP1" "a"] (Some 0)) []))
    eq_refl).
Defined.

(** X2.  An item found in the Files or Directories index and re-seen
    with [Source = ManualSource] or [UserSource] is left alone:
    [Crawl] returns nil and the lookup is its only event. *)
Theorem Crawl_existing_manual_source (c : Crawler) (r : t.AnnotatedResource) (h : trace)
    (idx : Index) (u : indexTypes.Update) :
  r_Protocol r <> t.InvalidProtocol ->
  isSupportedType (r_Type r) = true ->
  index_Get (world c) h r = (Some (idx, u), None) ->
  idx = Indexes_Files \/ idx = Indexes_Directories ->
  t.Source r = t.ManualSource \/ t.Source r = t.UserSource ->
  Crawl c r h = (Ret None, h ++ [EvGetExisting r]).
Proof.
  intros Hp Ht Hget Hidx Hsrc.
  rewrite (Crawl_lookup c r h _ _ Hp Ht Hget).
  unfold processExisting, updateExisting, bind. cbn [item_Index item_AnnotatedResource].
  destruct Hidx as [-> | ->]; destruct Hsrc as [-> | ->]; reflexivity.
Qed.

Lemma Crawl_existing_manual_source_witness :
  Crawl (found_crawler (Some (Indexes_Files, indexTypes.mkUpdate (Some 0) [])))
    sample_file []
  = (Ret None, [] ++ [EvGetExisting sample_file]).
Proof.
  refine (Crawl_existing_manual_source
            (found_crawler (Some (Indexes_Files, indexTypes.mkUpdate (Some 0) [])))
            sample_file [] Indexes_Files
            (indexTypes.mkUpdate (Some 0) []) _ eq_refl eq_refl
            (or_introl eq_refl) (or_introl eq_refl)).
  cbn. discriminate.
Defined.

(** X3.  A resource found in the Invalids index is done: whatever its
    source and parent, [Crawl] returns nil and the lookup is its only
    event. *)
Theorem Crawl_existing_invalid (c : Crawler) (r : t.AnnotatedResource) (h : trace)
    (u : indexTypes.Update) :
  r_Protocol r <> t.InvalidProtocol ->
  isSupportedType (r_Type r) = true ->
  index_Get (world c) h r = (Some (Indexes_Invalids, u), None) ->
  Crawl c r h = (Ret None, h ++ [EvGetExisting r]).
Proof.
  intros Hp Ht Hget. rewrite (Crawl_lookup c r h _ _ Hp Ht Hget). reflexivity.
Qed.

Lemma Crawl_existing_invalid_witness :
  Crawl (found_crawler (Some (Indexes_Invalids, indexTypes.mkUpdate None [])))
    (sample_resource "QmX" t.UndefinedType t.DirectorySource (Some sample_directory) "x") []
  = (Ret None,
     [] ++ [EvGetExisting
              (sample_resource "QmX" t.UndefinedType t.DirectorySource
                 (Some sample_directory) "x")]).
Proof.
  refine (Crawl_existing_invalid
            (found_crawler (Some (Indexes_Invalids, indexTypes.mkUpdate None [])))
            (sample_resource "QmX" t.UndefinedType t.DirectorySource (Some sample_directory) "x")
            [] (indexTypes.mkUpdate None []) _ eq_refl eq_refl).
  cbn. discriminate.
Defined.

(** X4.  When the deletion of a referenced partial fails, [Crawl]
    returns that error at once: the resource is neither probed nor
    indexed. *)
Theorem Crawl_partial_delete_fails (c : Crawler) (r : t.AnnotatedResource) (h : trace)
    (u : indexTypes.Update) (e : t.error_value) :
  r_Protocol r <> t.InvalidProtocol ->
  isSupportedType (r_Type r) = true ->
  index_Get (world c) h r = (Some (Indexes_Partials, u), None) ->
  r_Parent r <> None ->
  index_Delete (world c) (h ++ [EvGetExisting r]) Indexes_Partials (r_ID r) = Some e ->
  Crawl c r h =
    (Ret (Some e), h ++ [EvGetExisting r; EvDelete Indexes_Partials (r_ID r)]).
Proof.
  intros Hp Ht Hget Hparent Hdel.
  rewrite (Crawl_lookup c r h _ _ Hp Ht Hget).
  unfold processExisting, processPartial, deletePartial, Index_Delete, bind, call.
  cbn [item_Index item_AnnotatedResource].
  destruct (r_Parent r); [ | contradiction].
  rewrite Hdel, <- app_assoc. reflexivity.
Qed.


Lemma Crawl_partial_delete_fails_witness :
  Crawl
    (with_world (found_crawler (Some (Indexes_Partials, indexTypes.mkUpdate None [])))
       (world_delete_fails
          (world (found_crawler (Some (Indexes_Partials, indexTypes.mkUpdate None []))))
          (t.ErrorString "indexer closed")))
    (sample_resource "QmX" t.FileType t.DirectorySource (Some sample_directory) "x") []
  = (Ret (Some (t.ErrorString "indexer closed")),
     [] ++ [EvGetExisting
              (sample_resource "QmX" t.FileType t.DirectorySource (Some sample_directory) "x");
            EvDelete Indexes_Partials "QmX"]).
Proof.
  refine (Crawl_partial_delete_fails
    (with_world (found_crawler (Some (Indexes_Partials, indexTypes.mkUpdate None [])))
       (world_delete_fails
          (world (found_crawler (Some (Indexes_Partials, indexTypes.mkUpdate None []))))
          (t.ErrorString "indexer closed")))
    (sample_resource "QmX" t.FileType t.DirectorySource (Some sample_directory) "x") []
    (indexTypes.mkUpdate None []) (t.ErrorString "indexer closed")
    _ eq_refl eq_refl _ eq_refl).
  - cbn. discriminate.
  - cbn. discriminate.
Defined.


(** *** New resources *)

(** X6.  When [Stat] fails for a resource that is not indexed and has
    no type yet: an error that is an invalid resource sends the
    resource to the Invalids index with the error's text, and [Crawl]
    returns what that write returns; any other error is returned by
    [Crawl] and nothing is written. *)
Theorem Crawl_stat_fails (c : Crawler) (r : t.AnnotatedResource) (h : trace)
    (st : t.Stat) (e : t.error_value) :
  r_Protocol r <> t.InvalidProtocol ->
  r_Type r = t.UndefinedType ->
  index_Get (world c) h r = (None, None) ->
  protocol_Stat (world c) (h ++ [EvGetExisting r]) r = (st, Some e) ->
  let h2 := h ++ [EvGetExisting r; EvStat r] in
  let doc := PInvalid (indexTypes.mkInvalid (Error e)) in
  Crawl c r h =
    if errors_Is_value e ErrInvalidResource
    then (Ret (index_Index (world c) h2 Indexes_Invalids (r_ID r) doc),
          h2 ++ [EvIndex Indexes_Invalids (r_ID r) doc])
    else (Ret (Some e), h2).
Proof.
  intros Hp Hty Hget Hstat h2 doc. subst h2 doc.
  assert (Ht : isSupportedType (r_Type r) = true) by (rewrite Hty; reflexivity).
  rewrite (Crawl_not_indexed c r h Hp Ht Hget).
  unfold Crawl_new, ensureType. rewrite Hty.
  unfold bind, call. rewrite Hstat. rewrite <- app_assoc. cbn [app].
  unfold ret at 1. cbv beta iota.
  destruct (errors_Is_value e ErrInvalidResource); reflexivity.
Qed.

Lemma Crawl_stat_fails_witness :
  Crawl
    (with_world (found_crawler None)
       (world_stat (world (found_crawler None)) (t.mkStat t.UndefinedType 0)
          (Some (t.WrappedError ErrInvalidResource "not unixfs"))))
    sample_undefined []
  = (Ret None,
     ([] ++ [EvGetExisting sample_undefined; EvStat sample_undefined]) ++
     [EvIndex Indexes_Invalids "QmU"
        (PInvalid (indexTypes.mkInvalid "not unixfs: invalid resource"))])
  /\
  Crawl
    (with_world (found_crawler None)
       (world_stat (world (found_crawler None)) (t.mkStat t.UndefinedType 0)
          (Some (t.ErrorString "context deadline exceeded"))))
    sample_undefined []
  = (Ret (Some (t.ErrorString "context deadline exceeded")),
     [] ++ [EvGetExisting sample_undefined; EvStat sample_undefined]).
Proof.
  split.
  - refine (Crawl_stat_fails
      (with_world (found_crawler None)
         (world_stat (world (found_crawler None)) (t.mkStat t.UndefinedType 0)
            (Some (t.WrappedError ErrInvalidResource "not unixfs"))))
      sample_undefined [] (t.mkStat t.UndefinedType 0)
      (t.WrappedError ErrInvalidResource "not unixfs") _ eq_refl eq_refl eq_refl).
    cbn. discriminate.
  - refine (Crawl_stat_fails
      (with_world (found_crawler None)
         (world_stat (world (found_crawler None)) (t.mkStat t.UndefinedType 0)
            (Some (t.ErrorString "context deadline exceeded"))))
      sample_undefined [] (t.mkStat t.UndefinedType 0)
      (t.ErrorString "context deadline exceeded") _ eq_refl eq_refl eq_refl).
    cbn. discriminate.
Defined.

(** X7.  What [Crawl] does with a resource that is not indexed, once
    [Stat] has answered without error: a partial is marked in the
    Partials index, an unsupported type is written to the Invalids
    index with the unsupported-type error, and a type that is still
    undefined makes [Crawl] panic before anything is written. *)
Theorem Crawl_stat_type (c : Crawler) (r : t.AnnotatedResource) (h : trace) (st : t.Stat) :
  r_Protocol r <> t.InvalidProtocol ->
  r_Type r = t.UndefinedType ->
  index_Get (world c) h r = (None, None) ->
  protocol_Stat (world c) (h ++ [EvGetExisting r]) r = (st, None) ->
  let h2 := h ++ [EvGetExisting r; EvStat r] in
  let invalid := PInvalid (indexTypes.mkInvalid (Error ErrUnsupportedType)) in
  (t.Type_ st = t.PartialType ->
     Crawl c r h =
       (Ret (index_Index (world c) h2 Indexes_Partials (r_ID r) PPartial),
        h2 ++ [EvIndex Indexes_Partials (r_ID r) PPartial]))
  /\ (t.Type_ st = t.UnsupportedType ->
     Crawl c r h =
       (Ret (index_Index (world c) h2 Indexes_Invalids (r_ID r) invalid),
        h2 ++ [EvIndex Indexes_Invalids (r_ID r) invalid]))
  /\ (t.Type_ st = t.UndefinedType ->
     Crawl c r h = (Panic "undefined type after Stat call", h2)).
Proof.
  intros Hp Hty Hget Hstat h2 invalid. subst h2 invalid.
  assert (Ht : isSupportedType (r_Type r) = true) by (rewrite Hty; reflexivity).
  rewrite (Crawl_not_indexed c r h Hp Ht Hget).
  split; [ | split]; intros Hst.
  all: unfold Crawl_new, ensureType; rewrite Hty.
  all: unfold bind, call; rewrite Hstat, <- app_assoc; cbn [app].
  all: unfold ret at 1; cbv beta iota; unfold index, getProperties, r_Type; cbn [t.stat].
  all: rewrite Hst; reflexivity.
Qed.

Lemma Crawl_stat_type_witness :
  Crawl
    (with_world (found_crawler None)
       (world_stat (world (found_crawler None)) (t.mkStat t.UnsupportedType 0) None))
    sample_undefined []
  = (Ret None,
     ([] ++ [EvGetExisting sample_undefined; EvStat sample_undefined]) ++
     [EvIndex Indexes_Invalids "QmU"
        (PInvalid (indexTypes.mkInvalid (Error ErrUnsupportedType)))])
  /\
  Crawl
    (with_world (found_crawler None)
       (world_stat (world (found_crawler None)) (t.mkStat t.UndefinedType 0) None))
    sample_undefined []
  = (Panic "undefined type after Stat call",
     [] ++ [EvGetExisting sample_undefined; EvStat sample_undefined])
  /\
  Crawl
    (with_world (found_crawler None)
       (world_stat (world (found_crawler None)) (t.mkStat t.PartialType 0) None))
    sample_undefined []
  = (Ret None,
     ([] ++ [EvGetExisting sample_undefined; EvStat sample_undefined]) ++
     [EvIndex Indexes_Partials "QmU" PPartial]).
Proof.
  split; [ | split].
  - refine (proj1 (proj2 (Crawl_stat_type
      (with_world (found_crawler None)
         (world_stat (world (found_crawler None)) (t.mkStat t.UnsupportedType 0) None))
      sample_undefined [] (t.mkStat t.UnsupportedType 0) _ eq_refl eq_refl eq_refl)) eq_refl).
    cbn. discriminate.
  - refine (proj2 (proj2 (Crawl_stat_type
      (with_world (found_crawler None)
         (world_stat (world (found_crawler None)) (t.mkStat t.UndefinedType 0) None))
      sample_undefined [] (t.mkStat t.UndefinedType 0) _ eq_refl eq_refl eq_refl)) eq_refl).
    cbn. discriminate.
  - refine (proj1 (Crawl_stat_type
      (with_world (found_crawler None)
         (world_stat (world (found_crawler None)) (t.mkStat t.PartialType 0) None))
      sample_undefined [] (t.mkStat t.PartialType 0) _ eq_refl eq_refl eq_refl) eq_refl).
    cbn. discriminate.
Defined.

(** X8.  The document [makeDocument] builds: first and last seen are
    the same instant, a whole number of seconds, at most the clock
    reading and less than a second before it; the size is the
    resource's; the references are empty without a parent and the one
    pair (parent's CID, name) with one. *)
Theorem makeDocument_fresh (c : Crawler) (r : t.AnnotatedResource) (h : trace) :
  exists doc,
    makeDocument c r h = (Ret doc, h ++ [EvNow])
    /\ indexTypes.FirstSeen doc = indexTypes.LastSeen doc
    /\ indexTypes.LastSeen doc mod Second = 0
    /\ time_Now (world c) h - Second < indexTypes.LastSeen doc <= time_Now (world c) h
    /\ indexTypes.Size doc = r_Size r
    /\ indexTypes.Document_References doc =
         match r_Parent r with
         | Some parent => [indexTypes.mkReference (r_ID parent) (r_Name r)]
         | None => []
         end
    /\ NoDup (indexTypes.Document_References doc).
Proof.
  eexists. split; [reflexivity | ]. cbn.
  split; [reflexivity | ]. split; [apply Time_Truncate_Second_whole | ].
  split.
  - unfold Time_Truncate, Second. cbn [Z.leb Z.compare].
    pose proof (Z.mod_pos_bound (time_Now (world c) h) 1000000000 ltac:(lia)). lia.
  - repeat split. destruct (r_Parent r); repeat constructor; intros [].
Qed.


(** *** More on the extractor chain *)

Lemma prefix_append (s u : string) : String.prefix s (s ++ u) = true.
Proof.
  induction s as [| a s IH]; cbn.
  - destruct u; reflexivity.
  - destruct (ascii_dec a a) as [_ | Hne]; [exact IH | contradiction].
Qed.

Lemma getFileProperties_run c r h :
  exists doc,
    getFileProperties c r h =
    getFileProperties_loop (extractors c) 0 r (indexTypes.mkFile doc []) None (h ++ [EvNow]).
Proof. eexists. reflexivity. Qed.

(** As long as no extractor reports a file that is too large, the
    chain invokes every extractor once, in order, writes nothing, and
    ends with the error variable as the last extractor left it. *)
Lemma getFileProperties_loop_runs es : forall n r f err h,
  (forall e h' r' f', In e es ->
     errors_Is (snd (Extract e h' r' f')) ErrFileTooLarge = false) ->
  exists f' err' s,
    getFileProperties_loop es n r f err h = (Ret (PFile f', err'), h ++ s)
    /\ extracted_positions s = seq n (List.length es)
    /\ count is_write s = 0%nat
    /\ (es = [] -> err' = err)
    /\ (forall es0 el, es = es0 ++ [el] -> exists hl fl, err' = snd (Extract el hl r fl)).
Proof.
  induction es as [| e es IH]; intros n r f err h Hok.
  - exists f, err, []. cbn. rewrite app_nil_r. repeat split.
    intros es0 el Heq. destruct es0; discriminate Heq.
  - destruct (Extract e h r f) as [f1 err1] eqn:He.
    assert (Hnot : errors_Is err1 ErrFileTooLarge = false).
    { specialize (Hok e h r f (or_introl eq_refl)). rewrite He in Hok. exact Hok. }
    rewrite (getFileProperties_loop_continues e es n r f err h f1 err1 He Hnot).
    destruct (IH (S n) r f1 err1 (h ++ [EvExtract n r f])) as (f' & err' & s & Hrun & Hpos & Hw & Hnil & Hlast).
    { intros e' h' r' f'' Hin. apply Hok. right. exact Hin. }
    exists f', err', (EvExtract n r f :: s). rewrite Hrun, <- app_assoc. cbn [app].
    split; [reflexivity | ]. split; [ | split; [ | split]].
    + unfold extracted_positions in *. cbn [flat_map extracted app List.length seq].
      rewrite Hpos. reflexivity.
    + unfold count in *. cbn [filter is_write]. exact Hw.
    + discriminate.
    + intros es0 el Heq. destruct es0 as [| e0 es0].
      * cbn in Heq. inversion Heq. subst el es.
        exists h, f. rewrite He. cbn [snd]. apply Hnil. reflexivity.
      * cbn in Heq. inversion Heq. subst e0 es.
        destruct (Hlast es0 el eq_refl) as (hl & fl & Herr). exists hl, fl. exact Herr.
Qed.

(** X9.  For a file whose extractors never report it too large, only
    the last extractor's error counts.  Every extractor is invoked
    once, in order; if the last one returns nil, the Files document is
    written and [index] returns what that write returns, whatever the
    extractors before it returned; if it returns an error that is not
    an invalid resource, [index] returns that error and writes
    nothing. *)
Theorem index_file_last_extractor_decides (c : Crawler) (r : t.AnnotatedResource)
    (h : trace) (es0 : list Extractor) (el : Extractor) (ev : error) :
  r_Type r = t.FileType ->
  extractors c = es0 ++ [el] ->
  (forall e h' r' f', In e (extractors c) ->
     errors_Is (snd (Extract e h' r' f')) ErrFileTooLarge = false) ->
  (forall h' r' f', snd (Extract el h' r' f') = ev) ->
  exists s,
    extracted_positions s = seq 0 (List.length (extractors c))
    /\ count is_write s = 0%nat
    /\ (ev = None ->
        exists f',
          index c r h =
            (Ret (index_Index (world c) (h ++ EvNow :: s) Indexes_Files (r_ID r) (PFile f')),
             h ++ EvNow :: s ++ [EvIndex Indexes_Files (r_ID r) (PFile f')]))
    /\ (forall v, ev = Some v -> errors_Is_value v ErrInvalidResource = false ->
        index c r h = (Ret (Some v), h ++ EvNow :: s)).
Proof.
  intros Hty Hes Hok Hlast.
  destruct (getFileProperties_run c r h) as (doc & Hfile).
  destruct (getFileProperties_loop_runs (extractors c) 0 r
              (indexTypes.mkFile doc [])
              None (h ++ [EvNow]) Hok)
    as (f' & err' & s & Hrun & Hpos & Hw & _ & Herr).
  destruct (Herr es0 el Hes) as (hl & fl & Herr'). rewrite Hlast in Herr'. subst err'.
  exists s. split; [exact Hpos | ]. split; [exact Hw | ].
  assert (Hprops : getProperties c r h =
                   (Ret (Some Indexes_Files, PFile f', ev), h ++ EvNow :: s)).
  { unfold getProperties. rewrite Hty. unfold bind at 1.
    rewrite Hfile, Hrun, <- app_assoc. reflexivity. }
  split.
  - intros ->. exists f'. unfold index, bind. rewrite Hprops.
    unfold Index_Index, call. rewrite <- app_assoc. reflexivity.
  - intros v -> Hv. unfold index, bind. rewrite Hprops, Hv. reflexivity.
Qed.

Lemma index_file_last_extractor_decides_witness :
  exists s f',
    index (mkCrawler (sample_config 3) (calm_world 5 0 None (t.mkStat t.FileType 1) [])
             [failing_extractor; failing_extractor; passing_extractor])
      sample_file []
    = (Ret None, [] ++ EvNow :: s ++ [EvIndex Indexes_Files "QmF" (PFile f')])
    /\ extracted_positions s = [0; 1; 2]%nat.
Proof.
  destruct (index_file_last_extractor_decides
    (mkCrawler (sample_config 3) (calm_world 5 0 None (t.mkStat t.FileType 1) [])
       [failing_extractor; failing_extractor; passing_extractor])
    sample_file [] [failing_extractor; failing_extractor] passing_extractor None
    eq_refl eq_refl) as (s & Hpos & _ & Hnil & _).
  - intros e h' r' f' Hin. cbn in Hin.
    destruct Hin as [<- | [<- | [<- | []]]]; reflexivity.
  - reflexivity.
  - destruct (Hnil eq_refl) as (f' & Hrun). exists s, f'. split; assumption.
Defined.

(** An extractor that reports the file too large, after extractors
    that do not, ends the chain. *)
Lemma getFileProperties_loop_cut pre : forall e post n r f err h,
  (forall e' h' r' f', In e' pre ->
     errors_Is (snd (Extract e' h' r' f')) ErrFileTooLarge = false) ->
  (forall h' r' f', exists v,
     snd (Extract e h' r' f') = Some v /\ errors_Is_value v ErrFileTooLarge = true) ->
  exists v s,
    getFileProperties_loop (pre ++ e :: post) n r f err h =
      (Ret (PNil, Some (t.Errorf_w_v ErrInvalidResource v)), h ++ s)
    /\ extracted_positions s = seq n (S (List.length pre))
    /\ count is_write s = 0%nat.
Proof.
  induction pre as [| e0 pre IH]; intros e post n r f err h Hok Hlarge.
  - destruct (Hlarge h r f) as (v & Hv & Hbig).
    destruct (Extract e h r f) as [f1 err1] eqn:He. cbn [snd] in Hv. subst err1.
    exists v, [EvExtract n r f]. cbn [app].
    rewrite (getFileProperties_loop_stops e post n r f err h f1 v He Hbig).
    repeat split.
  - destruct (Extract e0 h r f) as [f1 err1] eqn:He.
    assert (Hnot : errors_Is err1 ErrFileTooLarge = false).
    { specialize (Hok e0 h r f (or_introl eq_refl)). rewrite He in Hok. exact Hok. }
    cbn [app].
    rewrite (getFileProperties_loop_continues e0 _ n r f err h f1 err1 He Hnot).
    destruct (IH e post (S n) r f1 err1 (h ++ [EvExtract n r f])) as (v & s & Hrun & Hpos & Hw).
    { intros e' h' r' f' Hin. apply Hok. right. exact Hin. }
    { exact Hlarge. }
    exists v, (EvExtract n r f :: s). rewrite Hrun, <- app_assoc. cbn [app].
    split; [reflexivity | ]. split.
    + unfold extracted_positions in *. cbn [flat_map extracted app List.length seq].
      rewrite Hpos. reflexivity.
    + unfold count in *. cbn [filter is_write]. exact Hw.
Qed.

(** X10.  The first extractor that reports the file too large ends
    the chain: the extractors after it are not invoked, no Files
    document is written, and the resource goes to the Invalids index
    with an error that starts with the invalid-resource text. *)
Theorem index_file_too_large_cuts_chain (c : Crawler) (r : t.AnnotatedResource)
    (h : trace) (pre : list Extractor) (e : Extractor) (post : list Extractor) :
  r_Type r = t.FileType ->
  extractors c = pre ++ e :: post ->
  (forall e' h' r' f', In e' pre ->
     errors_Is (snd (Extract e' h' r' f')) ErrFileTooLarge = false) ->
  (forall h' r' f', exists v,
     snd (Extract e h' r' f') = Some v /\ errors_Is_value v ErrFileTooLarge = true) ->
  exists s inv,
    index c r h =
      (Ret (index_Index (world c) (h ++ EvNow :: s) Indexes_Invalids (r_ID r) (PInvalid inv)),
       h ++ EvNow :: s ++ [EvIndex Indexes_Invalids (r_ID r) (PInvalid inv)])
    /\ extracted_positions s = seq 0 (S (List.length pre))
    /\ count is_write s = 0%nat
    /\ String.prefix "invalid resource: " (indexTypes.Invalid_Error inv) = true.
Proof.
  intros Hty Hes Hok Hlarge.
  destruct (getFileProperties_run c r h) as (doc & Hfile). rewrite Hes in Hfile.
  destruct (getFileProperties_loop_cut pre e post 0 r
              (indexTypes.mkFile doc [])
              None (h ++ [EvNow]) Hok Hlarge)
    as (v & s & Hrun & Hpos & Hw).
  exists s, (indexTypes.mkInvalid (Error (t.Errorf_w_v ErrInvalidResource v))).
  split; [ | split; [exact Hpos | split; [exact Hw | ]]].
  2: { change (String.prefix "invalid resource: "
                 ("invalid resource: " ++ Error v)%string = true).
       apply prefix_append. }
  unfold index, getProperties. rewrite Hty. unfold bind at 1 2.
  rewrite Hfile, Hrun, <- app_assoc.
  cbn. unfold indexInvalid, Index_Index, call. rewrite <- app_assoc. reflexivity.
Qed.

Lemma index_file_too_large_cuts_chain_witness :
  exists s inv,
    index (mkCrawler (sample_config 3) (calm_world 5 0 None (t.mkStat t.FileType 1) [])
             [failing_extractor; too_large_extractor; passing_extractor])
      sample_file []
    = (Ret None, [] ++ EvNow :: s ++ [EvIndex Indexes_Invalids "QmF" (PInvalid inv)])
    /\ extracted_positions s = [0; 1]%nat.
Proof.
  destruct (index_file_too_large_cuts_chain
    (mkCrawler (sample_config 3) (calm_world 5 0 None (t.mkStat t.FileType 1) [])
       [failing_extractor; too_large_extractor; passing_extractor])
    sample_file [] [failing_extractor] too_large_extractor [passing_extractor]
    eq_refl eq_refl) as (s & inv & Hrun & Hpos & _).
  - intros e' h' r' f' Hin. cbn in Hin. destruct Hin as [<- | []]. reflexivity.
  - intros h' r' f'. eexists. split; reflexivity.
  - exists s, inv. split; assumption.
Defined.


(** *** More on directories *)

(** However the loop ends, the links it adds number at most what is
    left of [MaxDirSize], and none once the directory is large. *)
Lemma processDirEntries_loop_links c entries :
  forall dirCnt isLarge p h err isLarge' p' h',
  is_uint (MaxDirSize (config c)) ->
  isLarge = true \/ 0 <= dirCnt <= MaxDirSize (config c) ->
  processDirEntries_loop c entries dirCnt isLarge p h = (Ret (err, isLarge', p'), h') ->
  exists added,
    indexTypes.Links p' = indexTypes.Links p ++ added
    /\ indexTypes.Directory_Document p' = indexTypes.Directory_Document p
    /\ Z.of_nat (List.length added) <=
       (if isLarge then 0 else MaxDirSize (config c) - dirCnt).
Proof.
  induction entries as [| [entry | cerr] entries IH];
    intros dirCnt isLarge p h err isLarge' p' h' Huint Hstate Hrun.
  - cbn in Hrun. inversion Hrun. subst. exists []. rewrite app_nil_r.
    repeat split. cbn. destruct isLarge'; [lia | ].
    destruct Hstate as [Hl | Hd]; [discriminate Hl | lia].
  - cbn [processDirEntries_loop] in Hrun.
    destruct (dirCnt =? MaxDirSize (config c)) eqn:Heq.
    + apply Z.eqb_eq in Heq. cbn [negb] in Hrun. unfold bind at 1 in Hrun.
      unfold ret at 1 in Hrun. unfold bind at 1 in Hrun.
      destruct (queueDirEntry c entry h) as [[[qe |] | msg] hq]; [ | | discriminate Hrun].
      * inversion Hrun. subst. exists []. rewrite app_nil_r.
        repeat split. cbn. destruct isLarge; lia.
      * destruct (IH _ true p hq err isLarge' p' h' Huint (or_introl eq_refl) Hrun)
          as (added & Hlinks & Hdoc & Hlen).
        exists added. repeat split; try assumption. destruct isLarge; lia.
    + apply Z.eqb_neq in Heq. destruct isLarge.
      * cbn [negb] in Hrun. unfold bind at 1 in Hrun.
        unfold ret at 1 in Hrun. unfold bind at 1 in Hrun.
        destruct (queueDirEntry c entry h) as [[[qe |] | msg] hq]; [ | | discriminate Hrun].
        -- inversion Hrun. subst. exists []. rewrite app_nil_r. repeat split. cbn. lia.
        -- apply (IH _ true p hq err isLarge' p' h' Huint (or_introl eq_refl) Hrun).
      * destruct Hstate as [Hl | Hd]; [discriminate Hl | ].
        cbn [negb] in Hrun. unfold bind at 1 in Hrun.
        destruct (addLink entry p h) as [[p1 | msg] h1] eqn:Hadd; [ | discriminate Hrun].
        assert (Hp1 : indexTypes.Links p1 = indexTypes.Links p ++ [link_of entry]
                      /\ indexTypes.Directory_Document p1 = indexTypes.Directory_Document p).
        { unfold addLink, resourceToLinkType, bind in Hadd. unfold link_of.
          destruct (r_Type entry); cbn in Hadd; inversion Hadd; subst; split; reflexivity. }
        destruct Hp1 as [Hl1 Hd1].
        unfold bind at 1 in Hrun.
        destruct (queueDirEntry c entry h1) as [[[qe |] | msg] hq]; [ | | discriminate Hrun].
        -- inversion Hrun. subst. exists [link_of entry].
           repeat split; try assumption. cbn. lia.
        -- assert (Hwrap : uint_wrap (dirCnt + 1) = dirCnt + 1).
           { unfold uint_wrap. apply Z.mod_small. unfold is_uint in Huint. lia. }
           rewrite Hwrap in Hrun.
           assert (Hnext : false = true \/ 0 <= dirCnt + 1 <= MaxDirSize (config c))
             by (right; lia).
           destruct (IH (dirCnt + 1) false p1 hq err isLarge' p' h' Huint Hnext Hrun)
             as (added & Hlinks & Hdoc & Hlen).
           exists (link_of entry :: added). repeat split.
           ++ rewrite Hlinks, Hl1, <- app_assoc. reflexivity.
           ++ rewrite Hdoc. exact Hd1.
           ++ cbn [List.length]. lia.
  - cbn in Hrun. inversion Hrun. subst. exists []. rewrite app_nil_r.
    repeat split. cbn. destruct isLarge'; [lia | ].
    destruct Hstate as [Hl | Hd]; [discriminate Hl | lia].
Qed.

(** X11.  Whatever the listing delivers and however it ends (errors
    and timeouts included), the directory document that
    [getDirectoryProperties] returns has at most [MaxDirSize] links. *)
Theorem getDirectoryProperties_links_bound (c : Crawler) (r : t.AnnotatedResource)
    (h : trace) (p : properties) (err : error) (h' : trace) :
  is_uint (MaxDirSize (config c)) ->
  getDirectoryProperties c r h = (Ret (p, err), h') ->
  exists d, p = PDirectory d
            /\ Z.of_nat (List.length (indexTypes.Links d)) <= MaxDirSize (config c).
Proof.
  intros Huint Hrun.
  unfold getDirectoryProperties, crawlDir, processDirEntries, makeDocument in Hrun.
  unfold bind, call, ret in Hrun.
  match type of Hrun with
  | context [processDirEntries_loop c ?es 0 false ?p0 ?h0] =>
      destruct (processDirEntries_loop c es 0 false p0 h0)
        as [[[[lerr isLarge] d] | msg] hl] eqn:Hloop; [ | discriminate Hrun]
  end.
  assert (Hstart : false = true \/ 0 <= 0 <= MaxDirSize (config c))
    by (right; unfold is_uint in Huint; lia).
  destruct (processDirEntries_loop_links c _ 0 false _ _ lerr isLarge d hl Huint
              Hstart Hloop)
    as (added & Hlinks & _ & Hlen).
  cbn [indexTypes.Links app] in Hlinks.
  destruct (errors_Is_value lerr errEndOfLs); inversion Hrun; subst.
  all: exists d; split; [reflexivity | lia].
Qed.

Lemma getDirectoryProperties_links_bound_witness :
  exists d,
    match fst (getDirectoryProperties (sample_crawler 3 3 sample_children)
                 sample_directory []) with
    | Ret (p, _) => p
    | Panic _ => PNil
    end = PDirectory d
    /\ Z.of_nat (List.length (indexTypes.Links d)) <= 3.
Proof.
  apply (getDirectoryProperties_links_bound
           (sample_crawler 3 3 sample_children) sample_directory []
           match fst (getDirectoryProperties (sample_crawler 3 3 sample_children)
                        sample_directory []) with
           | Ret (p, _) => p
           | Panic _ => PNil
           end
           (Some ErrDirectoryTooLarge)
           (snd (getDirectoryProperties (sample_crawler 3 3 sample_children)
                   sample_directory []))).
  - unfold is_uint, uint_modulus. cbn. lia.
  - vm_compute. reflexivity.
Defined.

(** While the children are queued without error, the loop moves on;
    the trace is that of queueing them in turn. *)
Lemma processDirEntries_loop_prefix c pre : forall rest dirCnt isLarge p h,
  (forall e h', In e pre -> fst (queueDirEntry c e h') = Ret None) ->
  exists dirCnt' isLarge' p',
    processDirEntries_loop c (map Entry pre ++ rest) dirCnt isLarge p h =
    processDirEntries_loop c rest dirCnt' isLarge' p' (queue_all c pre h).
Proof.
  induction pre as [| e pre IH]; intros rest dirCnt isLarge p h Hq.
  - exists dirCnt, isLarge, p. reflexivity.
  - cbn [map app processDirEntries_loop queue_all].
    assert (Hqe := Hq e h (or_introl eq_refl)).
    assert (Hq' : forall e' h', In e' pre -> fst (queueDirEntry c e' h') = Ret None)
      by (intros e' h' Hin; apply Hq; right; exact Hin).
    destruct (negb (if dirCnt =? MaxDirSize (config c) then true else isLarge)).
    + unfold bind at 1.
      rewrite (addLink_link_of e p h (queueDirEntry_not_partial c e h Hqe)).
      unfold bind at 1. rewrite (queueDirEntry_run c e h Hqe). apply IH. exact Hq'.
    + unfold bind at 1. unfold ret at 1. unfold bind at 1.
      rewrite (queueDirEntry_run c e h Hqe). apply IH. exact Hq'.
Qed.

(** X12.  When queueing a child fails, [processDirEntries] stops
    there and returns that error: the children before it have been
    queued, the entries after it are not looked at, and the outcome is
    not [ErrDirectoryTooLarge], however many children came before. *)
Theorem processDirEntries_queue_fails (c : Crawler) (pre : list t.AnnotatedResource)
    (x : t.AnnotatedResource) (rest : list recv) (e : t.error_value)
    (p : indexTypes.Directory) (h : trace) :
  (forall e' h', In e' pre -> fst (queueDirEntry c e' h') = Ret None) ->
  (forall h', fst (queueDirEntry c x h') = Ret (Some e)) ->
  errors_Is_value e errEndOfLs = false ->
  exists p',
    processDirEntries c (map Entry pre ++ Entry x :: rest) p h =
      (Ret (p', Some e), snd (queueDirEntry c x (queue_all c pre h))).
Proof.
  intros Hq Hx He.
  destruct (processDirEntries_loop_prefix c pre (Entry x :: rest) 0 false p h Hq)
    as (dirCnt & isLarge & p1 & Hpre).
  unfold processDirEntries. unfold bind at 1. rewrite Hpre.
  cbn [processDirEntries_loop].
  assert (Hnp : r_Type x <> t.PartialType).
  { intros Hty. specialize (Hx h). unfold queueDirEntry, bind, call in Hx.
    rewrite Hty in Hx. discriminate Hx. }
  assert (Hrun : forall h', queueDirEntry c x h' = (Ret (Some e), snd (queueDirEntry c x h'))).
  { intros h'. specialize (Hx h'). destruct (queueDirEntry c x h') as [o hq].
    cbn in *. subst o. reflexivity. }
  destruct (negb (if dirCnt =? MaxDirSize (config c) then true else isLarge)).
  - unfold bind at 1. rewrite (addLink_link_of x p1 _ Hnp).
    unfold bind at 1. rewrite Hrun. unfold ret at 1. rewrite He. eexists. reflexivity.
  - unfold bind at 1. unfold ret at 1. unfold bind at 1.
    rewrite Hrun. unfold ret at 1. rewrite He. eexists. reflexivity.
Qed.

Lemma processDirEntries_queue_fails_witness :
  exists p',
    processDirEntries
      (with_world (sample_crawler 1 3 [])
         (world_publish_refuses (world (sample_crawler 1 3 [])) "QmC"
            (t.ErrorString "channel closed")))
      (map Entry (firstn 2 sample_children) ++
       Entry (nth 2 sample_children sample_directory) :: map Entry (skipn 3 sample_children))
      (indexTypes.mkDirectory (indexTypes.mkDocument 0 0 [] 0) []) []
    = (Ret (p', Some (t.ErrorString "channel closed")),
       snd (queueDirEntry
              (with_world (sample_crawler 1 3 [])
                 (world_publish_refuses (world (sample_crawler 1 3 [])) "QmC"
                    (t.ErrorString "channel closed")))
              (nth 2 sample_children sample_directory)
              (queue_all
                 (with_world (sample_crawler 1 3 [])
                    (world_publish_refuses (world (sample_crawler 1 3 [])) "QmC"
                       (t.ErrorString "channel closed")))
                 (firstn 2 sample_children) []))).
Proof.
  apply processDirEntries_queue_fails.
  - intros e' h' Hin. cbn in Hin. destruct Hin as [<- | [<- | []]]; reflexivity.
  - intros h'. reflexivity.
  - reflexivity.
Defined.


Lemma processDirEntries_ctx_done c pre e rest p h :
  (forall e' h', In e' pre -> fst (queueDirEntry c e' h') = Ret None) ->
  errors_Is_value e errEndOfLs = false ->
  exists p',
    processDirEntries c (map Entry pre ++ CtxDone e :: rest) p h =
      (Ret (p', Some e), queue_all c pre h).
Proof.
  intros Hq He.
  destruct (processDirEntries_loop_prefix c pre (CtxDone e :: rest) 0 false p h Hq)
    as (dirCnt & isLarge & p1 & Hpre).
  unfold processDirEntries, bind. rewrite Hpre. cbn [processDirEntries_loop].
  unfold ret at 1. rewrite He. eexists. reflexivity.
Qed.

(** [index] on a directory, in terms of what [processDirEntries]
    does with the listing. *)
Lemma index_directory_run c r h :
  r_Type r = t.DirectoryType ->
  exists doc,
    index c r h =
      bind (processDirEntries c
              (received (protocol_Ls (world c) (h ++ [EvNow]) r))
              (indexTypes.mkDirectory doc []))
        (fun x =>
           let err := errgroup_Wait (snd x)
                        (ls_err (protocol_Ls (world c) (h ++ [EvNow]) r))
                        (ls_err_first (protocol_Ls (world c) (h ++ [EvNow]) r)) in
           match err with
           | Some e =>
               if errors_Is_value e ErrInvalidResource
               then indexInvalid c r e
               else ret (Some e)
           | None => Index_Index c Indexes_Directories (r_ID r) (PDirectory (fst x))
           end)
        (h ++ [EvNow; EvLs r]).
Proof.
  intros Hty.
  exists (indexTypes.mkDocument
            (Time_Truncate (time_Now (world c) h) Second)
            (Time_Truncate (time_Now (world c) h) Second)
            match r_Parent r with
            | Some parent => [indexTypes.mkReference (r_ID parent) (r_Name r)]
            | None => []
            end (r_Size r)).
  unfold index, getProperties. rewrite Hty.
  unfold getDirectoryProperties, crawlDir, makeDocument.
  unfold bind, call, ret. rewrite <- app_assoc. cbn [app].
  destruct (processDirEntries c _ _ _) as [[[p' err] | msg] h']; [ | reflexivity].
  cbn [fst snd]. destruct (errgroup_Wait _ _ _); reflexivity.
Qed.

(** X13.  When the listing is interrupted by the context (a timeout
    between entries, a cancellation), [index] returns the context's
    error once the children received so far have been queued, and the
    parent is written to no index, however many children had been
    received. *)
Theorem index_listing_interrupted (c : Crawler) (r : t.AnnotatedResource) (h : trace)
    (pre : list t.AnnotatedResource) (e : t.error_value) (rest : list recv) :
  r_Type r = t.DirectoryType ->
  received (protocol_Ls (world c) (h ++ [EvNow]) r) = map Entry pre ++ CtxDone e :: rest ->
  ls_err (protocol_Ls (world c) (h ++ [EvNow]) r) = None \/
  ls_err_first (protocol_Ls (world c) (h ++ [EvNow]) r) = false ->
  (forall e' h', In e' pre -> fst (queueDirEntry c e' h') = Ret None) ->
  errors_Is_value e errEndOfLs = false ->
  errors_Is_value e ErrInvalidResource = false ->
  index c r h = (Ret (Some e), queue_all c pre (h ++ [EvNow; EvLs r])).
Proof.
  intros Hty Hrecv Hls Hq Hend Hinv.
  destruct (index_directory_run c r h Hty) as (doc & Hrun). rewrite Hrun, Hrecv.
  destruct (processDirEntries_ctx_done c pre e rest (indexTypes.mkDirectory doc [])
              (h ++ [EvNow; EvLs r]) Hq Hend) as (p' & Hp).
  unfold bind. rewrite Hp. cbn [fst snd].
  assert (Hwait : errgroup_Wait (Some e)
                    (ls_err (protocol_Ls (world c) (h ++ [EvNow]) r))
                    (ls_err_first (protocol_Ls (world c) (h ++ [EvNow]) r)) = Some e).
  { unfold errgroup_Wait. destruct Hls as [-> | ->]; [reflexivity | ].
    destruct (ls_err _); reflexivity. }
  rewrite Hwait, Hinv. reflexivity.
Qed.

Lemma index_listing_interrupted_witness :
  index
    (with_world (sample_crawler 1 3 [])
       (world_ls (world (sample_crawler 1 3 []))
          (mkLsRun (map Entry (firstn 3 sample_children) ++
                    [CtxDone (t.ErrorString "context deadline exceeded")])
             (Some (t.ErrorString "context canceled")) false)))
    sample_directory []
  = (Ret (Some (t.ErrorString "context deadline exceeded")),
     queue_all
       (with_world (sample_crawler 1 3 [])
          (world_ls (world (sample_crawler 1 3 []))
             (mkLsRun (map Entry (firstn 3 sample_children) ++
                       [CtxDone (t.ErrorString "context deadline exceeded")])
                (Some (t.ErrorString "context canceled")) false)))
       (firstn 3 sample_children) ([] ++ [EvNow; EvLs sample_directory])).
Proof.
  apply (index_listing_interrupted _ sample_directory [] (firstn 3 sample_children)
           (t.ErrorString "context deadline exceeded") []).
  - reflexivity.
  - reflexivity.
  - right. reflexivity.
  - intros e' h' Hin. cbn in Hin. destruct Hin as [<- | [<- | [<- | []]]]; reflexivity.
  - reflexivity.
  - reflexivity.
Defined.

(** X14.  A child of type [PartialType] in a listing makes [index]
    panic with [unexpected type] once the children before it have
    been queued; the parent is written to no index. *)
Theorem index_partial_child_panics (c : Crawler) (r : t.AnnotatedResource) (h : trace)
    (pre : list t.AnnotatedResource) (x : t.AnnotatedResource) (rest : list recv) :
  r_Type r = t.DirectoryType ->
  received (protocol_Ls (world c) (h ++ [EvNow]) r) = map Entry pre ++ Entry x :: rest ->
  (forall e' h', In e' pre -> fst (queueDirEntry c e' h') = Ret None) ->
  r_Type x = t.PartialType ->
  let hq := queue_all c pre (h ++ [EvNow; EvLs r]) in
  index c r h = (Panic "unexpected type", hq) \/
  index c r h = (Panic "unexpected type", hq ++ [EvIntn 7]).
Proof.
  intros Hty Hrecv Hq Hx hq.
  destruct (index_directory_run c r h Hty) as (doc & Hrun). rewrite Hrun, Hrecv.
  destruct (processDirEntries_loop_prefix c pre (Entry x :: rest) 0 false
              (indexTypes.mkDirectory doc []) (h ++ [EvNow; EvLs r]) Hq)
    as (dirCnt & isLarge & p1 & Hpre).
  fold hq in Hpre. cbn [processDirEntries_loop] in Hpre.
  destruct (negb (if dirCnt =? MaxDirSize (config c) then true else isLarge)).
  - left. unfold processDirEntries, bind. rewrite Hpre.
    unfold bind, addLink, resourceToLinkType. rewrite Hx. reflexivity.
  - right. unfold processDirEntries, bind. rewrite Hpre.
    unfold bind, ret, queueDirEntry. unfold bind, call. rewrite Hx. reflexivity.
Qed.

Lemma index_partial_child_panics_witness :
  index
    (with_world (sample_crawler 3 3 [])
       (world_ls (world (sample_crawler 3 3 []))
          (mkLsRun (map Entry (firstn 1 sample_children) ++
                    [Entry (sample_resource "QmX" t.PartialType t.DirectorySource None "x")])
             None false)))
    sample_directory []
  = (Panic "unexpected type",
     [EvNow; EvLs sample_directory; EvIntn 7;
      EvPublish Queues_Files (nth 0 sample_children sample_directory) 4]).
Proof.
  destruct (index_partial_child_panics
    (with_world (sample_crawler 3 3 [])
       (world_ls (world (sample_crawler 3 3 []))
          (mkLsRun (map Entry (firstn 1 sample_children) ++
                    [Entry (sample_resource "QmX" t.PartialType t.DirectorySource None "x")])
             None false)))
    sample_directory [] (firstn 1 sample_children)
    (sample_resource "QmX" t.PartialType t.DirectorySource None "x") []
    eq_refl eq_refl) as [Hrun | Hrun].
  - intros e' h' Hin. cbn in Hin. destruct Hin as [<- | []]. reflexivity.
  - reflexivity.
  - exact Hrun.
  - vm_compute in Hrun. discriminate Hrun.
Defined.


(** The consumer writes no Directories document, and panics with
    [unexpected type] only. *)
Lemma processDirEntries_emits c entries p :
  emits (fun e => is_index_into Indexes_Directories e = false)
    (fun msg => msg = "unexpected type") (processDirEntries c entries p).
Proof.
  assert (Hlink : forall e d,
            emits (fun e => is_index_into Indexes_Directories e = false)
              (fun msg => msg = "unexpected type") (addLink e d)).
  { intros e d. unfold addLink, resourceToLinkType.
    emits_step; [repeat emits_step | emits_step]. }
  assert (Hqueue : forall e,
            emits (fun e => is_index_into Indexes_Directories e = false)
              (fun msg => msg = "unexpected type") (queueDirEntry c e)).
  { intros e. unfold queueDirEntry, Queue_Publish, indexInvalid, Index_Index.
    emits_step; [emits_step | ]. destruct (r_Type e); emits_step. }
  assert (Hloop : forall dirCnt isLarge d,
            emits (fun e => is_index_into Indexes_Directories e = false)
              (fun msg => msg = "unexpected type")
              (processDirEntries_loop c entries dirCnt isLarge d)).
  { induction entries as [| [entry | err] entries IH]; intros dirCnt isLarge d;
      cbn [processDirEntries_loop]; try emits_step.
    - destruct (negb _); [apply Hlink | emits_step].
    - emits_step; [apply Hqueue | ]. destruct a0; [emits_step | apply IH]. }
  unfold processDirEntries. emits_step; [apply Hloop | ].
  destruct a as [[err isLarge] d]. destruct (errors_Is_value _ _); emits_step.
Qed.

(** X15.  When [Ls] returns an error, no Directories document is
    written, whatever the consumer had received and done. *)
Theorem index_listing_fails (c : Crawler) (r : t.AnnotatedResource) (h : trace)
    (e : t.error_value) :
  r_Type r = t.DirectoryType ->
  ls_err (protocol_Ls (world c) (h ++ [EvNow]) r) = Some e ->
  exists s,
    snd (index c r h) = h ++ s
    /\ count (is_index_into Indexes_Directories) s = 0%nat.
Proof.
  intros Hty Hls.
  destruct (index_directory_run c r h Hty) as (doc & Hrun). rewrite Hrun, Hls.
  match goal with
  | |- context [bind ?m ?k _] =>
      assert (Hem : emits (fun e => is_index_into Indexes_Directories e = false)
                      (fun _ => True) (bind m k))
  end.
  { apply emits_bind.
    - eapply emits_weaken; [ | | apply processDirEntries_emits]; cbn; tauto.
    - intros [p' err]. cbn [fst snd]. cbv zeta.
      assert (Hwait : exists e', errgroup_Wait err (Some e)
                        (ls_err_first (protocol_Ls (world c) (h ++ [EvNow]) r)) = Some e').
      { unfold errgroup_Wait. destruct err as [ce |]; [ | eexists; reflexivity].
        destruct (ls_err_first _); eexists; reflexivity. }
      destruct Hwait as (e' & ->).
      destruct (errors_Is_value e' ErrInvalidResource); [ | apply emits_ret].
      unfold indexInvalid, Index_Index. apply emits_call. reflexivity. }
  destruct (Hem (h ++ [EvNow; EvLs r])) as (s & Hs & HE & _).
  exists ([EvNow; EvLs r] ++ s). split.
  - rewrite Hs, <- app_assoc. reflexivity.
  - apply count_none. apply Forall_app. split; [repeat constructor | exact HE].
Qed.

Lemma index_listing_fails_witness :
  exists s,
    snd (index
           (with_world (sample_crawler 9 3 [])
              (world_ls (world (sample_crawler 9 3 []))
                 (mkLsRun (map Entry (firstn 2 sample_children))
                    (Some (t.ErrorString "connection reset")) true)))
           sample_directory [])
    = [] ++ s
    /\ count (is_index_into Indexes_Directories) s = 0%nat.
Proof.
  apply (index_listing_fails _ sample_directory [] (t.ErrorString "connection reset")).
  - reflexivity.
  - reflexivity.
Defined.










(** *** The event source's [afterPut] hook *)

Import eventsource.

(** C9.  [afterPut] returns a non-nil write error unchanged and emits
    nothing; in every other case it returns nil: for a key that is no
    provider key, when the CID or the peer ID cannot be parsed from
    the key, and when emitting fails.  Parse and emit failures are
    recorded on the span and nothing is put on the bus. *)
Theorem C9_afterPut_returns (s : EventSource) (k : Key) (v : list Byte.byte) (st : State) :
  (forall e, fst (afterPut s k v (Some e) st) = Some e /\
             bus (snd (afterPut s k v (Some e) st)) = bus st)
  /\ fst (afterPut s k v None st) = None
  /\ (isProviderKey s k = false ->
      bus (snd (afterPut s k v None st)) = bus st)
  /\ (forall e, isProviderKey s k = true -> keyToCID s k = inr e ->
      afterPut s k v None st = (None, span_RecordError (from_key_error "cid" k e) st))
  /\ (forall cid e, isProviderKey s k = true -> keyToCID s k = inl cid ->
      keyToPeerID s k = inr e ->
      afterPut s k v None st = (None, span_RecordError (from_key_error "pid" k e) st))
  /\ (forall cid pid e, isProviderKey s k = true -> keyToCID s k = inl cid ->
      keyToPeerID s k = inl pid ->
      emitter_Emit s (bus st) (mkEvtProviderPut cid pid) = Some e ->
      fst (afterPut s k v None st) = None /\
      In (RecordError e) (span (snd (afterPut s k v None st))) /\
      bus (snd (afterPut s k v None st)) = bus st).
Proof.
  repeat split.
  - unfold afterPut.
    destruct (isProviderKey s k); cbn [negb]; [ | reflexivity].
    destruct (keyToCID s k) as [cid | e]; [ | reflexivity].
    destruct (keyToPeerID s k) as [pid | e]; [ | reflexivity].
    cbn. destruct (emitter_Emit s (bus st) _); reflexivity.
  - intros Hk. unfold afterPut. rewrite Hk. reflexivity.
  - intros e Hk Hc. unfold afterPut. rewrite Hk, Hc. reflexivity.
  - intros cid e Hk Hc Hp. unfold afterPut. rewrite Hk, Hc, Hp. reflexivity.
  - unfold afterPut. rewrite H, H0, H1. cbn. rewrite H2. reflexivity.
  - unfold afterPut. rewrite H, H0, H1. cbn. rewrite H2. cbn.
    apply in_or_app. right. left. reflexivity.
  - unfold afterPut. rewrite H, H0, H1. cbn. rewrite H2. reflexivity.
Qed.

Lemma C9_afterPut_returns_witness :
  bus (snd (afterPut sample_source "/other/key" [] None (mkState [] []))) = []
  /\ afterPut sample_source "/providers/badcid" [] None (mkState [] [])
     = (None, span_RecordError
                (from_key_error "cid" "/providers/badcid" (t.ErrorString "invalid cid"))
                (mkState [] []))
  /\ afterPut sample_source "/providers/badpid" [] None (mkState [] [])
     = (None, span_RecordError
                (from_key_error "pid" "/providers/badpid" (t.ErrorString "invalid peer id"))
                (mkState [] []))
  /\ fst (afterPut sample_source "/providers/x" [] None
            (mkState [] [mkEvtProviderPut "QmB" "peerB"])) = None.
Proof.
  split; [ | split; [ | split]].
  - apply (proj1 (proj2 (proj2
      (C9_afterPut_returns sample_source "/other/key" [] (mkState [] []))))).
    reflexivity.
  - apply (proj1 (proj2 (proj2 (proj2
      (C9_afterPut_returns sample_source "/providers/badcid" [] (mkState [] [])))))).
    + reflexivity.
    + reflexivity.
  - apply (proj1 (proj2 (proj2 (proj2 (proj2
      (C9_afterPut_returns sample_source "/providers/badpid" [] (mkState [] []))))))
      "QmA").
    + reflexivity.
    + reflexivity.
    + reflexivity.
  - apply (proj2 (proj2 (proj2 (proj2 (proj2
      (C9_afterPut_returns sample_source "/providers/x" []
         (mkState [] [mkEvtProviderPut "QmB" "peerB"]))))))
      "QmA" "peerA" (t.ErrorString "emitter closed")).
    + reflexivity.
    + reflexivity.
    + reflexivity.
    + reflexivity.
Defined.


(** *** The event source's subscription loop *)

Lemma Subscribe_loop_handled (h : handleFunc) (pre : list EvtProviderPut) :
  forall rest handled,
  (forall hd e, In e pre -> h hd e = None) ->
  Subscribe_loop (map (fun e => RecvValue (ProviderPut e)) pre ++ rest) h handled =
  Subscribe_loop rest h (handled ++ pre).
Proof.
  induction pre as [| e pre IH]; intros rest handled Hok.
  - cbn. rewrite app_nil_r. reflexivity.
  - cbn [map app Subscribe_loop iterate].
    rewrite (Hok handled e (or_introl eq_refl)).
    rewrite IH by (intros hd e' Hin; apply Hok; right; exact Hin).
    rewrite <- app_assoc. reflexivity.
Qed.

Lemma Subscribe_loop_never_nil (h : handleFunc) (c : list bus_recv) :
  forall handled, fst (Subscribe_loop c h handled) <> None.
Proof.
  induction c as [| r c IH]; intros handled.
  - cbn. discriminate.
  - cbn [Subscribe_loop].
    destruct (iterate (Some r) h handled) as [[err |] handled'] eqn:Hit.
    + cbn. discriminate.
    + apply IH.
Qed.

(** X17.  [Subscribe] returns only with an error.  It hands the
    events to the handler in the order of the bus; the first error of
    the handler ends it and is returned unchanged, and the events
    after that one are not handled; a closed channel ends it with
    [reading from event bus], the context with the context's error. *)
Theorem Subscribe_ends_with_first_error (h : handleFunc) (pre : list EvtProviderPut)
    (rest : list bus_recv) :
  (forall hd e, In e pre -> h hd e = None) ->
  let c := map (fun e => RecvValue (ProviderPut e)) pre ++ rest in
  fst (Subscribe (inl c) h) <> None
  /\ (forall x rest' err, rest = RecvValue (ProviderPut x) :: rest' ->
      h pre x = Some err ->
      Subscribe (inl c) h = (Some err, pre ++ [x]))
  /\ (rest = [] ->
      Subscribe (inl c) h = (Some (t.ErrorString "reading from event bus"), pre))
  /\ (forall err rest', rest = RecvCtxDone err :: rest' ->
      Subscribe (inl c) h = (Some err, pre)).
Proof.
  intros Hok c. subst c. unfold Subscribe.
  split; [apply Subscribe_loop_never_nil | ].
  rewrite (Subscribe_loop_handled h pre rest [] Hok). cbn [app].
  split; [ | split].
  - intros x rest' err -> Hx. cbn [Subscribe_loop iterate]. rewrite Hx. reflexivity.
  - intros ->. reflexivity.
  - intros err rest' ->. reflexivity.
Qed.

Lemma Subscribe_ends_with_first_error_witness :
  Subscribe
    (inl (map (fun e => RecvValue (ProviderPut e))
            [mkEvtProviderPut "QmA" "peerA"; mkEvtProviderPut "QmB" "peerB"]
          ++ [RecvValue (ProviderPut (mkEvtProviderPut "QmC" "peerC"));
              RecvValue (ProviderPut (mkEvtProviderPut "QmD" "peerD"))]))
    (fun _ e => if String.eqb (CID e) "QmC"
                then Some (t.ErrorString "context deadline exceeded") else None)
  = (Some (t.ErrorString "context deadline exceeded"),
     [mkEvtProviderPut "QmA" "peerA"; mkEvtProviderPut "QmB" "peerB"]
     ++ [mkEvtProviderPut "QmC" "peerC"]).
Proof.
  refine (proj1 (proj2
    (Subscribe_ends_with_first_error
       (fun _ e => if String.eqb (CID e) "QmC"
                   then Some (t.ErrorString "context deadline exceeded") else None)
       [mkEvtProviderPut "QmA" "peerA"; mkEvtProviderPut "QmB" "peerB"]
       [RecvValue (ProviderPut (mkEvtProviderPut "QmC" "peerC"));
        RecvValue (ProviderPut (mkEvtProviderPut "QmD" "peerD"))] _))
    _ _ _ eq_refl eq_refl).
  intros hd e Hin. cbn in Hin. destruct Hin as [<- | [<- | []]]; reflexivity.
Defined.

(** *** The sniffer's restart loop *)

Lemma Sniff_restarts (pre : list sniffer.round) :
  forall rest log,
  (forall x, In x pre -> sniffer.ctx_Err x = None) ->
  sniffer.Sniff (pre ++ rest) log =
  sniffer.Sniff rest
    (log ++ flat_map (fun _ => [sniffer.Iterate; sniffer.Sleep Second]) pre).
Proof.
  induction pre as [| x pre IH]; intros rest log Hok.
  - cbn. rewrite app_nil_r. reflexivity.
  - cbn [app sniffer.Sniff flat_map].
    rewrite (Hok x (or_introl eq_refl)).
    rewrite IH by (intros y Hin; apply Hok; right; exact Hin).
    rewrite <- !app_assoc. reflexivity.
Qed.

(** X18.  [Sniff] restarts the pipeline, one second later, as long as
    the parent context is alive, whatever error the pipeline ended
    with; it returns in the first round after which the parent context
    is closed, and what it returns is the context's error, not the
    pipeline's. *)
Theorem Sniff_returns_context_error (pre : list sniffer.round) (r : sniffer.round)
    (post : list sniffer.round) (e : t.error_value) :
  (forall x, In x pre -> sniffer.ctx_Err x = None) ->
  sniffer.ctx_Err r = Some e ->
  sniffer.Sniff (pre ++ r :: post) [] =
    (Some e,
     flat_map (fun _ => [sniffer.Iterate; sniffer.Sleep Second]) pre ++ [sniffer.Iterate])
  /\ fst (sniffer.Sniff pre []) = None.
Proof.
  intros Hok He. split.
  - rewrite (Sniff_restarts pre (r :: post) [] Hok). cbn [app sniffer.Sniff].
    rewrite He. reflexivity.
  - rewrite <- (app_nil_r pre) at 1. rewrite (Sniff_restarts pre [] [] Hok). reflexivity.
Qed.

Lemma Sniff_returns_context_error_witness :
  sniffer.Sniff
    ([sniffer.mkRound (Some (t.ErrorString "amqp: connection lost")) None;
      sniffer.mkRound (Some (t.ErrorString "reading from event bus")) None]
     ++ sniffer.mkRound (Some (t.ErrorString "amqp: connection lost"))
          (Some (t.ErrorString "context canceled")) :: []) []
  = (Some (t.ErrorString "context canceled"),
     flat_map (fun _ => [sniffer.Iterate; sniffer.Sleep Second])
       [sniffer.mkRound (Some (t.ErrorString "amqp: connection lost")) None;
        sniffer.mkRound (Some (t.ErrorString "reading from event bus")) None]
     ++ [sniffer.Iterate]).
Proof.
  refine (proj1 (Sniff_returns_context_error
    [sniffer.mkRound (Some (t.ErrorString "amqp: connection lost")) None;
     sniffer.mkRound (Some (t.ErrorString "reading from event bus")) None]
    (sniffer.mkRound (Some (t.ErrorString "amqp: connection lost"))
       (Some (t.ErrorString "context canceled")))
    [] (t.ErrorString "context canceled") _ eq_refl)).
  intros x Hin. cbn in Hin. destruct Hin as [<- | [<- | []]]; reflexivity.
Defined.

(** *** The Elasticsearch index's [Get] *)

(** X19.  [Get] reports a document as found only without an error,
    and then the request, both decodings and the [found] field were
    all fine; it reports not-found without error exactly for a
    decodable response that says not found with status 404, so a
    not-found answer with any other status is an error. *)
Theorem Get_found_and_not_found (o : elasticsearch.GetOutcome) :
  (fst (elasticsearch.Get o) = true ->
     snd (elasticsearch.Get o) = None
     /\ elasticsearch.do_err o = None
     /\ elasticsearch.decode_body_err o = None
     /\ elasticsearch.Found o = true
     /\ elasticsearch.decode_source_err o = None)
  /\ (elasticsearch.Get o = (false, None) <->
      elasticsearch.do_err o = None
      /\ elasticsearch.decode_body_err o = None
      /\ elasticsearch.Found o = false
      /\ elasticsearch.StatusCode o = 404).
Proof.
  unfold elasticsearch.Get.
  destruct (elasticsearch.do_err o) as [e1 |];
    [split; [discriminate | split; [discriminate | intros (H & _); discriminate H]] | ].
  destruct (elasticsearch.decode_body_err o) as [e2 |];
    [split; [discriminate | split; [discriminate | intros (_ & H & _); discriminate H]] | ].
  destruct (elasticsearch.Found o).
  - destruct (elasticsearch.decode_source_err o) as [e3 |].
    + split; [discriminate | split; [discriminate | intros (_ & _ & H & _); discriminate H]].
    + split; [intros _; repeat split | ].
      split; [discriminate | intros (_ & _ & H & _); discriminate H].
  - destruct (elasticsearch.StatusCode o =? 404) eqn:Hs; cbn [negb].
    + apply Z.eqb_eq in Hs. split; [discriminate | ].
      split; [intros _; repeat split; exact Hs | reflexivity].
    + apply Z.eqb_neq in Hs. split; [discriminate | ].
      split; [discriminate | intros (_ & _ & _ & H); contradiction].
Qed.

Lemma Get_found_and_not_found_witness :
  elasticsearch.Get (elasticsearch.mkGetOutcome None 404 "404 Not Found" None false None)
  = (false, None)
  /\ snd (elasticsearch.Get
            (elasticsearch.mkGetOutcome None 200 "200 OK" None true None)) = None.
Proof.
  split.
  - apply (proj2 (proj2 (Get_found_and_not_found
      (elasticsearch.mkGetOutcome None 404 "404 Not Found" None false None)))).
    repeat split.
  - apply (proj1 (Get_found_and_not_found
      (elasticsearch.mkGetOutcome None 200 "200 OK" None true None))).
    reflexivity.
Defined.

(** *** What [afterPut] puts on the bus *)

(** X20.  [afterPut] keeps what the bus holds and adds at most one
    event; it adds one exactly when the write succeeded, the key is a
    provider key, both parses succeed and the emitter accepts the
    event, and the event then carries the CID and the peer ID parsed
    from the key. *)
Theorem afterPut_emits_at_most_once (s : EventSource) (k : Key) (v : list Byte.byte)
    (err : error) (st : State) :
  (exists added,
     bus (snd (afterPut s k v err st)) = bus st ++ added /\ (List.length added <= 1)%nat)
  /\ (forall evt,
      bus (snd (afterPut s k v err st)) = bus st ++ [evt] <->
      err = None /\ isProviderKey s k = true /\ keyToCID s k = inl (CID evt)
      /\ keyToPeerID s k = inl (PeerID_ evt) /\ emitter_Emit s (bus st) evt = None).
Proof.
  assert (Hnil : forall evt, bus st = bus st ++ [evt] -> False).
  { intros evt Heq. apply (f_equal (@List.length _)) in Heq.
    rewrite length_app in Heq. cbn in Heq. lia. }
  unfold afterPut.
  destruct err as [e |].
  { split; [exists []; cbn; rewrite app_nil_r; split; [reflexivity | lia] | ].
    intros evt. cbn. split; [intros H; destruct (Hnil evt H) | intros (H & _); discriminate H]. }
  destruct (isProviderKey s k); cbn [negb].
  2: { split; [exists []; cbn; rewrite app_nil_r; split; [reflexivity | lia] | ].
       intros evt. cbn.
       split; [intros H; destruct (Hnil evt H) | intros (_ & H & _); discriminate H]. }
  destruct (keyToCID s k) as [cid | e].
  2: { split; [exists []; cbn; rewrite app_nil_r; split; [reflexivity | lia] | ].
       intros evt. cbn.
       split; [intros H; destruct (Hnil evt H) | intros (_ & _ & H & _); discriminate H]. }
  destruct (keyToPeerID s k) as [pid | e].
  2: { split; [exists []; cbn; rewrite app_nil_r; split; [reflexivity | lia] | ].
       intros evt. cbn.
       split; [intros H; destruct (Hnil evt H) | intros (_ & _ & _ & H & _); discriminate H]. }
  cbn [bus span].
  destruct (emitter_Emit s (bus st) (mkEvtProviderPut cid pid)) as [e |] eqn:Hemit.
  - split; [exists []; cbn; rewrite app_nil_r; split; [reflexivity | lia] | ].
    intros evt. cbn. split; [intros H; destruct (Hnil evt H) | ].
    intros (_ & _ & Hc & Hp & He). inversion Hc. inversion Hp. subst cid pid.
    destruct evt as [c0 p0]. cbn in Hemit. rewrite Hemit in He. discriminate He.
  - split; [exists [mkEvtProviderPut cid pid]; cbn; split; [reflexivity | lia] | ].
    intros evt. cbn. split.
    + intros Heq. apply app_inv_head in Heq. inversion Heq. subst evt. cbn.
      repeat split. exact Hemit.
    + intros (_ & _ & Hc & Hp & _). inversion Hc. inversion Hp.
      destruct evt as [c0 p0]. reflexivity.
Qed.

Lemma afterPut_emits_at_most_once_witness :
  bus (snd (afterPut sample_source "/providers/x" [] None (mkState [] [])))
  = [] ++ [mkEvtProviderPut "QmA" "peerA"].
Proof.
  apply (proj2 (proj2 (afterPut_emits_at_most_once sample_source "/providers/x" [] None
                         (mkState [] [])) (mkEvtProviderPut "QmA" "peerA"))).
  repeat split.
Defined.
